(** * Twinny extension entry point ([src/index.ts]): feedback recorder,
      completion de-duplication cache, file-interaction wiring and
      context-item commands.

    The development is a shallow embedding of the event handlers registered
    by [activate].  Handlers are written in a small completion monad that
    keeps JavaScript's three ways of leaving a block apart (falling through,
    [return], and a thrown exception), so that the nested [try]/[catch]
    structure of the change handler is modelled as it is written.

    Collaborators that live in other modules of the extension
    ([FileInteractionCache], the sidebar's context registry) are modelled
    from the specification and marked as such.  Calls that cross the module
    boundary are recorded in a call log, so that statements of the form
    "[f] is called exactly once with ..." can be stated and proved. *)

From stdpp Require Import base strings list gmap.
From Stdlib Require Import ZArith Lia Ascii.

(* ===================================================================== *)
(** ** JavaScript values used by the handlers                             *)
(* ===================================================================== *)

(** Truthiness of a JavaScript string: every string but the empty one. *)
Definition truthy (s : string) : bool := bool_decide (s ≠ "").

(** [o || ""] for [o : string | undefined]. *)
Definition or_empty (o : option string) : string :=
  match o with
  | Some s => if truthy s then s else ""
  | None => ""
  end.

(** [a === b] on strings. *)
Definition strict_eq (a b : string) : bool := bool_decide (a = b).

(* ===================================================================== *)
(** ** Editor data                                                        *)
(* ===================================================================== *)

Record Position := { line : Z; character : Z }.

(** One element of [e.contentChanges]: the inserted text and
    [range.start]. *)
Record ContentChange := {
  text : string;
  range_start : Position
}.

(** [TextDocumentChangeEvent]: the content changes and
    [e.document.uri.fsPath]. *)
Record TextDocumentChangeEvent := {
  contentChanges : list ContentChange;
  fsPath : string
}.

(** What the change handler reads from the completion provider:
    [lastCompletionText], [_document?.fileName], [lastCompletionId], and
    whether [recordCompletionInteraction] is a function. *)
Record CompletionProvider := {
  lastCompletionText : string;
  _document : option string;
  lastCompletionId : option string;
  hasRecordCompletionInteraction : bool
}.

(** Behaviour of the calls that may raise while the handler inspects or
    persists a record: [os.homedir()], the call of
    [recordCompletionInteraction] in the inner [try] and the one in the
    [catch] block.  Each call site is reached at most once per event. *)
Record Outcomes := {
  homedirThrows : bool;
  recordThrows : bool;
  fallbackRecordThrows : bool
}.

(** Calls that leave this module, in the order they are made. *)
Inductive Call :=
| SetAcceptedLastCompletion (flag : bool)
| IncrementStrokes (currentLine currentCharacter : Z)
| RecordCompletionInteraction
    (accepted : bool) (userText : option string) (completionId : string)
| ConsoleError (message : string).

Global Instance Call_eq_dec : EqDecision Call.
Proof. solve_decision. Defined.

(* ===================================================================== *)
(** ** Interaction store                                                  *)
(* ===================================================================== *)

Module FileInteractionCache.

Record FileInteraction := {
  visits : nat;
  strokes : nat;
  lastStrokePosition : option (Z * Z)
}.

Definition no_interaction : FileInteraction :=
  {| visits := 0; strokes := 0; lastStrokePosition := None |}.

(** Modelled from the spec: the class [FileInteractionCache] of
    [src/extension/file-interaction] is not part of this file.  Section
    4.3 of the specification gives its operations: per-path counters, at
    most one open session, [startSession]/[endSession] open and close the
    session, the two increments act on the path of the open session, and
    [delete] removes the accumulated state of a path.  Session timestamps
    are left out. *)
Record t := {
  currentFile : option string;
  interactions : gmap string FileInteraction
}.

Definition empty : t := {| currentFile := None; interactions := ∅ |}.

(** Accumulated counters of a path; a path without state has none. *)
Definition counters (c : t) (path : string) : FileInteraction :=
  default no_interaction (interactions c !! path).

(** Modelled from the spec: [startSession(path)] opens a session for
    [path]; closing a session that is open is left to the caller. *)
Definition startSession (path : string) (c : t) : t :=
  {| currentFile := Some path; interactions := interactions c |}.

(** Modelled from the spec: [endSession()] closes whatever session is
    open and does nothing if none is. *)
Definition endSession (c : t) : t :=
  {| currentFile := None; interactions := interactions c |}.

(** Modelled from the spec: [incrementVisits()] increments the visit
    counter of the path of the open session. *)
Definition incrementVisits (c : t) : t :=
  match currentFile c with
  | None => c
  | Some path =>
      let i := counters c path in
      {| currentFile := currentFile c;
         interactions :=
           <[path := {| visits := S (visits i);
                        strokes := strokes i;
                        lastStrokePosition := lastStrokePosition i |}]>
             (interactions c) |}
  end.

(** Modelled from the spec: [incrementStrokes(line, character)]
    increments the stroke counter of the path of the open session and
    records the position as the last stroke position. *)
Definition incrementStrokes (l ch : Z) (c : t) : t :=
  match currentFile c with
  | None => c
  | Some path =>
      let i := counters c path in
      {| currentFile := currentFile c;
         interactions :=
           <[path := {| visits := visits i;
                        strokes := S (strokes i);
                        lastStrokePosition := Some (l, ch) |}]>
             (interactions c) |}
  end.

(** Modelled from the spec: [delete(path)] removes all accumulated
    state of [path]. *)
Definition delete (path : string) (c : t) : t :=
  {| currentFile := currentFile c;
     interactions := base.delete path (interactions c) |}.

End FileInteractionCache.

(* ===================================================================== *)
(** ** State owned by [activate]                                          *)
(* ===================================================================== *)

Definition MAX_RECENT_COMPLETION_IDS : nat := 10.

Record State := {
  recentCompletionIdsSet : gset string;
  recentCompletionIdsQueue : list string;
  fileInteractionCache : FileInteractionCache.t;
  (** the provider's flag written by [setAcceptedLastCompletion] *)
  acceptedLastCompletion : bool;
  calls : list Call
}.

Definition initial_state : State :=
  {| recentCompletionIdsSet := ∅;
     recentCompletionIdsQueue := [];
     fileInteractionCache := FileInteractionCache.empty;
     acceptedLastCompletion := false;
     calls := [] |}.

(* ===================================================================== *)
(** ** Completion monad                                                   *)
(* ===================================================================== *)

(** How a block is left. *)
Inductive completion (A : Type) : Type :=
| Normal (a : A)
| Return
| Throw.
Arguments Normal {A} a.
Arguments Return {A}.
Arguments Throw {A}.

Definition M (A : Type) : Type := State → completion A * State.

Definition ret {A} (a : A) : M A := λ s, (Normal a, s).

Definition bind {A B} (m : M A) (f : A → M B) : M B :=
  λ s, match m s with
       | (Normal a, s') => f a s'
       | (Return, s') => (Return, s')
       | (Throw, s') => (Throw, s')
       end.

(** The [return] statement. *)
Definition return_ {A} : M A := λ s, (Return, s).

(** [try { body } catch { handler }]: only a thrown exception enters the
    handler; state changes made before the throw stay. *)
Definition try_catch {A} (body handler : M A) : M A :=
  λ s, match body s with
       | (Throw, s') => handler s'
       | r => r
       end.

(** Calling a function whose body is [body]: a [return] inside ends the
    call normally, an exception propagates to the caller. *)
Definition call (body : M unit) : M unit :=
  λ s, match body s with
       | (Return, s') => (Normal tt, s')
       | r => r
       end.

Definition get {A} (proj : State → A) : M A := λ s, (Normal (proj s), s).

Definition modify (f : State → State) : M unit := λ s, (Normal tt, f s).

(** The monad is used through stdpp's [x ← m; k] and [m;; k]. *)
Global Instance M_ret : MRet M := @ret.
Global Instance M_bind : MBind M := λ A B f m, bind m f.

(* ===================================================================== *)
(** ** External calls                                                     *)
(* ===================================================================== *)

Definition log_call (c : Call) (s : State) : State :=
  {| recentCompletionIdsSet := recentCompletionIdsSet s;
     recentCompletionIdsQueue := recentCompletionIdsQueue s;
     fileInteractionCache := fileInteractionCache s;
     acceptedLastCompletion := acceptedLastCompletion s;
     calls := calls s ++ [c] |}.

(** Modelled from the spec: the provider's [setAcceptedLastCompletion]
    is not part of this file; it sets the "last completion accepted"
    flag. *)
Definition setAcceptedLastCompletion (flag : bool) : M unit :=
  modify (λ s,
    log_call (SetAcceptedLastCompletion flag)
      {| recentCompletionIdsSet := recentCompletionIdsSet s;
         recentCompletionIdsQueue := recentCompletionIdsQueue s;
         fileInteractionCache := fileInteractionCache s;
         acceptedLastCompletion := flag;
         calls := calls s |}).

Definition with_cache (f : FileInteractionCache.t → FileInteractionCache.t)
    (s : State) : State :=
  {| recentCompletionIdsSet := recentCompletionIdsSet s;
     recentCompletionIdsQueue := recentCompletionIdsQueue s;
     fileInteractionCache := f (fileInteractionCache s);
     acceptedLastCompletion := acceptedLastCompletion s;
     calls := calls s |}.

Definition incrementStrokes (l ch : Z) : M unit :=
  modify (λ s,
    log_call (IncrementStrokes l ch)
      (with_cache (FileInteractionCache.incrementStrokes l ch) s)).

(** The call is logged when it is made; whether it then returns or raises
    is the collaborator's business. *)
Definition recordCompletionInteraction
    (throws : bool) (accepted : bool) (userText : option string)
    (completionId : string) : M unit :=
  λ s, (if throws then Throw else Normal tt,
        log_call (RecordCompletionInteraction accepted userText completionId) s).

Definition console_error (message : string) : M unit :=
  modify (log_call (ConsoleError message)).

Definition os_homedir (throws : bool) : M unit :=
  λ s, (if throws then Throw else Normal tt, s).

(* ===================================================================== *)
(** ** Completion de-duplication cache                                    *)
(* ===================================================================== *)

(** [recentCompletionIdsSet.has(id)]. *)
Definition has (id : string) (set : gset string) : bool :=
  bool_decide (id ∈ set).

(** The insertion performed after a record has been handed over:
    add to the set and push on the queue unless the id is already a member;
    when the queue has grown beyond [MAX_RECENT_COMPLETION_IDS], shift the
    oldest id off the queue and delete it from the set if it is truthy. *)
Definition remember (completionId : string)
    (set : gset string) (queue : list string) : gset string * list string :=
  if has completionId set then (set, queue)
  else
    let set' := set ∪ {[completionId]} in
    let queue' := queue ++ [completionId] in
    if decide (MAX_RECENT_COMPLETION_IDS < length queue') then
      match queue' with
      | oldest :: rest =>
          (if truthy oldest then set' ∖ {[oldest]} else set', rest)
      | [] => (set', [])
      end
    else (set', queue').

Definition remember_in_state (completionId : string) (s : State) : State :=
  let r := remember completionId
             (recentCompletionIdsSet s) (recentCompletionIdsQueue s) in
  {| recentCompletionIdsSet := r.1;
     recentCompletionIdsQueue := r.2;
     fileInteractionCache := fileInteractionCache s;
     acceptedLastCompletion := acceptedLastCompletion s;
     calls := calls s |}.

(* ===================================================================== *)
(** ** The document handlers                                              *)
(* ===================================================================== *)

Section Handlers.

(** [getLineBreakCount] of [src/webview/utils] is imported, not defined
    here; the handlers are parametric in it. *)
Variable getLineBreakCount : string → Z.

(** [workspace.onDidChangeTextDocument((e) => { ... })]. *)
Definition onDidChangeTextDocument (e : TextDocumentChangeEvent)
    (completionProvider : CompletionProvider) (w : Outcomes) : M unit :=
  call (
    match head (contentChanges e) with
    | None => return_
    | Some changes =>
      let lastCompletion := lastCompletionText completionProvider in
      let isLastCompltionMultiline :=
        bool_decide (1 < getLineBreakCount lastCompletion)%Z in
      setAcceptedLastCompletion
        (truthy (text changes) && truthy lastCompletion
         && strict_eq (text changes) lastCompletion
         && isLastCompltionMultiline);;
      try_catch
        (let changedPath := or_empty (Some (fsPath e)) in
         let completionDocPath := or_empty (_document completionProvider) in
         if negb (truthy changedPath) || negb (truthy completionDocPath)
            || negb (strict_eq changedPath completionDocPath)
         then
           incrementStrokes (line (range_start changes))
                            (character (range_start changes));;
           return_
         else mret tt)
        (incrementStrokes (line (range_start changes))
                          (character (range_start changes));;
         return_);;
      try_catch
        (match lastCompletionId completionProvider with
         | Some completionId =>
           if truthy completionId then
             try_catch
               (os_homedir (homedirThrows w);;
                found ← get (λ s, has completionId (recentCompletionIdsSet s));
                if (found : bool) then mret tt
                else
                  let accepted :=
                    truthy (text changes) && truthy lastCompletion
                    && strict_eq (text changes) lastCompletion in
                  let userText :=
                    if accepted then None
                    else Some (or_empty (Some (text changes))) in
                  if hasRecordCompletionInteraction completionProvider then
                    recordCompletionInteraction (recordThrows w)
                      accepted userText completionId;;
                    modify (remember_in_state completionId)
                  else mret tt)
               (console_error
                  "Failed to inspect/write completion interaction for completionId";;
                try_catch
                  (let accepted :=
                     truthy (text changes) && truthy lastCompletion
                     && strict_eq (text changes) lastCompletion in
                   let userText :=
                     if accepted then None
                     else Some (or_empty (Some (text changes))) in
                   if hasRecordCompletionInteraction completionProvider then
                     recordCompletionInteraction (fallbackRecordThrows w)
                       accepted userText completionId
                   else mret tt)
                  (console_error
                     "Failed to fallback record completion interaction"))
           else mret tt
         | None => mret tt
         end)
        (console_error "Failed to record completion interaction");;
      incrementStrokes (line (range_start changes))
                       (character (range_start changes))
    end).

(** [workspace.onDidCloseTextDocument((document) => { ... })]. *)
Definition onDidCloseTextDocument (filePath : string) : M unit :=
  call (
    modify (with_cache FileInteractionCache.endSession);;
    modify (with_cache (FileInteractionCache.delete filePath))).

(** [workspace.onDidOpenTextDocument((document) => { ... })]. *)
Definition onDidOpenTextDocument (filePath : string) : M unit :=
  call (
    modify (with_cache (FileInteractionCache.startSession filePath));;
    modify (with_cache FileInteractionCache.incrementVisits)).

(** One notification delivered by the editor, together with what the
    handler can observe of its collaborators while it runs. *)
Inductive Notification :=
| DidChange (e : TextDocumentChangeEvent)
            (completionProvider : CompletionProvider) (w : Outcomes)
| DidClose (filePath : string)
| DidOpen (filePath : string).

Definition handle (n : Notification) : M unit :=
  match n with
  | DidChange e p w => onDidChangeTextDocument e p w
  | DidClose f => onDidCloseTextDocument f
  | DidOpen f => onDidOpenTextDocument f
  end.

(** State after a notification (also when the handler threw). *)
Definition step (s : State) (n : Notification) : State := (handle n s).2.

Definition run (ns : list Notification) (s : State) : State :=
  foldl step s ns.

End Handlers.

(* ===================================================================== *)
(** ** Observations on the call log                                       *)
(* ===================================================================== *)

(** The feedback records handed to [recordCompletionInteraction], as
    [(accepted, userText, completionId)], oldest first. *)
Definition record_calls (cs : list Call) : list (bool * option string * string) :=
  omap (λ c, match c with
             | RecordCompletionInteraction a u i => Some (a, u, i)
             | _ => None
             end) cs.

Definition recorded_ids (cs : list Call) : list string :=
  (λ r, r.2) <$> record_calls cs.

Definition stroke_calls (cs : list Call) : list (Z * Z) :=
  omap (λ c, match c with
             | IncrementStrokes l ch => Some (l, ch)
             | _ => None
             end) cs.

Definition flag_calls (cs : list Call) : list bool :=
  omap (λ c, match c with
             | SetAcceptedLastCompletion b => Some b
             | _ => None
             end) cs.

Definition error_calls (cs : list Call) : list string :=
  omap (λ c, match c with
             | ConsoleError m => Some m
             | _ => None
             end) cs.

(** The calls a handler run adds to the log. *)
Definition new_calls (before after : State) : list Call :=
  drop (length (calls before)) (calls after).

(** The condition of the first [try] block under which the change is not
    considered for recording. *)
Definition path_mismatch (e : TextDocumentChangeEvent)
    (p : CompletionProvider) : bool :=
  negb (truthy (or_empty (Some (fsPath e))))
  || negb (truthy (or_empty (_document p)))
  || negb (strict_eq (or_empty (Some (fsPath e))) (or_empty (_document p))).

(** A change notification that reaches the recording code for id [c]:
    it has a content change, the paths agree, the provider's
    [lastCompletionId] is the truthy string [c], and the provider has a
    [recordCompletionInteraction] function. *)
Definition qualifies (c : string) (n : Notification) : bool :=
  match n with
  | DidChange e p _ =>
      bool_decide (is_Some (head (contentChanges e)))
      && negb (path_mismatch e p)
      && bool_decide (lastCompletionId p = Some c)
      && truthy c
      && hasRecordCompletionInteraction p
  | _ => false
  end.

(** A notification during which neither [os.homedir()] nor the first call
    of [recordCompletionInteraction] raises. *)
Definition no_throw (n : Notification) : Prop :=
  match n with
  | DidChange _ _ w => homedirThrows w = false ∧ recordThrows w = false
  | _ => True
  end.

(** Inserting a sequence of ids into an empty cache. *)
Definition remember_all (ids : list string) : gset string * list string :=
  foldl (λ c id, remember id c.1 c.2) (∅, []) ids.

(** What the fallback path and the main path both compute from the change
    and [lastCompletionText]. *)
Definition feedback_record (changes : ContentChange) (p : CompletionProvider)
    (completionId : string) : bool * option string * string :=
  let accepted :=
    truthy (text changes) && truthy (lastCompletionText p)
    && strict_eq (text changes) (lastCompletionText p) in
  (accepted, if accepted then None else Some (text changes), completionId).

(* ===================================================================== *)
(** ** Context items                                                      *)
(* ===================================================================== *)

Module ContextRegistry.

Record SelectionRange := {
  startLine : Z;
  startCharacter : Z;
  endLine : Z;
  endCharacter : Z
}.

(** [FileContextItem | SelectionContextItem] of [src/common/types]; the
    [category] field is the constructor. *)
Inductive ContextItem :=
| FileContextItem (id name path : string)
| SelectionContextItem (id name path content : string)
    (selectionRange : SelectionRange).

Definition item_id (i : ContextItem) : string :=
  match i with
  | FileContextItem id _ _ => id
  | SelectionContextItem id _ _ _ _ => id
  end.

(** Modelled from the spec: [sidebarProvider.addContextItem] is defined in
    the sidebar provider, not in this file.  Section 4.4 of the
    specification: [add(item)] inserts keyed by [id]; re-adding an existing
    [id] replaces in place or is ignored (both are allowed, [replace]
    selects which); items are listed in insertion order. *)
Definition addContextItem (replace : bool) (item : ContextItem)
    (registry : list ContextItem) : list ContextItem :=
  if bool_decide (item_id item ∈ item_id <$> registry) then
    if replace then
      (λ i, if bool_decide (item_id i = item_id item) then item else i)
        <$> registry
    else registry
  else registry ++ [item].

(** [window.activeTextEditor]: the document's [uri.fsPath], the selection
    and the text it covers ([document.getText(selection)]). *)
Record TextEditor := {
  document_fsPath : string;
  selection_isEmpty : bool;
  selection_start : Position;
  selection_end : Position;
  selectedText : string
}.

Record Sidebar := {
  registry : list ContextItem;
  (** texts passed to [window.showInformationMessage] *)
  informationMessages : list string
}.

Section Commands.

(** [workspace.asRelativePath], [path.basename] and the rendering of a
    number inside a template string come from the editor and the runtime. *)
Variable asRelativePath : string → string.
Variable basename : string → string.
Variable number_to_string : Z → string.

(** Which of the two behaviours allowed for a repeated id the sidebar
    implements, and whether it has an [addContextItem] member at all. *)
Variable replace : bool.
Variable hasAddContextItem : bool.

(** The item built by the [addFileToContext] command. *)
Definition fileContextItem (editor : TextEditor) : ContextItem :=
  let filePath := asRelativePath (document_fsPath editor) in
  FileContextItem filePath (basename (document_fsPath editor)) filePath.

(** The item built by the [addSelectionToContext] command; [uuid] is the
    value returned by [uuidv4()]. *)
Definition selectionContextItem (editor : TextEditor) (uuid : string)
    : ContextItem :=
  let filePath := asRelativePath (document_fsPath editor) in
  SelectionContextItem uuid
    ("Selection from " +:+ basename filePath +:+ " (L"
       +:+ number_to_string (line (selection_start editor) + 1) +:+ "-L"
       +:+ number_to_string (line (selection_end editor) + 1) +:+ ")")
    filePath
    (selectedText editor)
    {| startLine := line (selection_start editor);
       startCharacter := character (selection_start editor);
       endLine := line (selection_end editor);
       endCharacter := character (selection_end editor) |}.

Definition addFileToContext (activeTextEditor : option TextEditor)
    (s : Sidebar) : Sidebar :=
  match activeTextEditor with
  | Some editor =>
      if hasAddContextItem then
        {| registry := addContextItem replace (fileContextItem editor)
                         (registry s);
           informationMessages := informationMessages s |}
      else s
  | None => s
  end.

Definition addSelectionToContext (activeTextEditor : option TextEditor)
    (uuid : string) (s : Sidebar) : Sidebar :=
  match activeTextEditor with
  | Some editor =>
      if negb (selection_isEmpty editor) then
        if hasAddContextItem then
          {| registry := addContextItem replace
                           (selectionContextItem editor uuid) (registry s);
             informationMessages := informationMessages s |}
        else s
      else
        {| registry := registry s;
           informationMessages :=
             informationMessages s
               ++ ["No text selected to add to context."] |}
  | None =>
      {| registry := registry s;
         informationMessages :=
           informationMessages s ++ ["No text selected to add to context."] |}
  end.

(** A command invocation: the active editor at that moment and, for a
    selection, the token [uuidv4()] returns if it is called. *)
Inductive Command :=
| AddFile (activeTextEditor : option TextEditor)
| AddSelection (activeTextEditor : option TextEditor) (uuid : string).

Definition execute (s : Sidebar) (c : Command) : Sidebar :=
  match c with
  | AddFile ed => addFileToContext ed s
  | AddSelection ed uuid => addSelectionToContext ed uuid s
  end.

Definition execute_all (cs : list Command) (s : Sidebar) : Sidebar :=
  foldl execute s cs.



End Commands.

Definition empty : Sidebar := {| registry := []; informationMessages := [] |}.

End ContextRegistry.

(* ===================================================================== *)
(** ** Closed form of one run of the change handler                       *)
(* ===================================================================== *)

Definition record_call (r : bool * option string * string) : Call :=
  RecordCompletionInteraction r.1.1 r.1.2 r.2.

(** The value passed to [setAcceptedLastCompletion]. *)
Definition coarse_flag (getLineBreakCount : string → Z)
    (changes : ContentChange) (p : CompletionProvider) : bool :=
  truthy (text changes) && truthy (lastCompletionText p)
  && strict_eq (text changes) (lastCompletionText p)
  && bool_decide (1 < getLineBreakCount (lastCompletionText p))%Z.

(** The calls made by the second [try] block, given the set as it is when
    the block is entered. *)
Definition feedback_calls (changes : ContentChange) (p : CompletionProvider)
    (w : Outcomes) (set : gset string) : list Call :=
  match lastCompletionId p with
  | Some id =>
      if truthy id then
        let r := record_call (feedback_record changes p id) in
        let fallback :=
          ConsoleError
            "Failed to inspect/write completion interaction for completionId"
          :: (if hasRecordCompletionInteraction p then
                r :: (if fallbackRecordThrows w then
                        [ConsoleError
                           "Failed to fallback record completion interaction"]
                      else [])
              else []) in
        if homedirThrows w then fallback
        else if has id set then []
        else if hasRecordCompletionInteraction p then
          r :: (if recordThrows w then fallback else [])
        else []
      else []
  | None => []
  end.

(** The id the second [try] block puts into the cache, if any. *)
Definition remembered (p : CompletionProvider) (w : Outcomes)
    (set : gset string) : option string :=
  match lastCompletionId p with
  | Some id =>
      if truthy id && negb (homedirThrows w) && negb (has id set)
         && hasRecordCompletionInteraction p && negb (recordThrows w)
      then Some id else None
  | None => None
  end.

(** Instance of [getLineBreakCount] used in the examples: the number of
    pieces the string falls into when cut at every line feed. *)
Fixpoint count_line_feeds (s : string) : nat :=
  match s with
  | EmptyString => 0
  | String a s' =>
      (if Ascii.eqb a (Ascii.ascii_of_nat 10) then 1 else 0) + count_line_feeds s'
  end.

Definition pieces (s : string) : Z := Z.of_nat (S (count_line_feeds s)).

(* ===================================================================== *)
(** ** Invariants and scenarios used in the statements                    *)
(* ===================================================================== *)

(** The set mirrors the queue, the queue has no repeated id, no empty id,
    and at most [MAX_RECENT_COMPLETION_IDS] entries. *)
Definition cache_ok (set : gset string) (queue : list string) : Prop :=
  NoDup queue
  ∧ (∀ x, x ∈ set ↔ x ∈ queue)
  ∧ length queue ≤ MAX_RECENT_COMPLETION_IDS
  ∧ Forall (λ x, x ≠ "") queue.

(** The id a notification puts into the cache, given the set before it. *)
Definition inserted_by (n : Notification) (set : gset string) : option string :=
  match n with
  | DidChange e p w =>
      match head (contentChanges e) with
      | Some _ => if path_mismatch e p then None else remembered p w set
      | None => None
      end
  | _ => None
  end.

(** Two records for the same id are more than [n] positions apart. *)
Definition spaced (n : nat) (ids : list string) : Prop :=
  ∀ i j c, i < j → ids !! i = Some c → ids !! j = Some c → i + n < j.

(** *** Scenarios for the examples *)

Definition quiet : Outcomes :=
  {| homedirThrows := false; recordThrows := false;
     fallbackRecordThrows := false |}.

(** An edit at line 3, character 4 of [path] that inserts [inserted],
    while the provider's last completion is [last] with id [id], issued
    for document [doc]. *)
Definition edit_event (path inserted : string) : TextDocumentChangeEvent :=
  {| contentChanges :=
       [{| text := inserted; range_start := {| line := 3; character := 4 |} |}];
     fsPath := path |}.

Definition provider_with (doc last : string) (id : option string)
    : CompletionProvider :=
  {| lastCompletionText := last; _document := Some doc;
     lastCompletionId := id; hasRecordCompletionInteraction := true |}.

Definition edit (path inserted doc last : string) (id : option string)
    (w : Outcomes) : Notification :=
  DidChange (edit_event path inserted) (provider_with doc last id) w.

(** The user accepts the completion with id [id] in [/src/a.ts]. *)
Definition accept (id : string) : Notification :=
  edit "/src/a.ts" "return x + y" "/src/a.ts" "return x + y" (Some id) quiet.

(** An edit for id [c], then ten edits for ten other ids, then another
    edit for [c]. *)
Definition eviction_run : list Notification :=
  accept "c"
  :: (accept <$> ["a1"; "a2"; "a3"; "a4"; "a5"; "a6"; "a7"; "a8"; "a9"; "a10"])
  ++ [accept "c"].

(** An event that carries no content change. *)
Definition empty_event : TextDocumentChangeEvent :=
  {| contentChanges := []; fsPath := "/src/a.ts" |}.

(** A completion text of two lines. *)
Definition two_lines : string :=
  "if (x) {" +:+ String (Ascii.ascii_of_nat 10) "}".

(** An editor on [src/a.ts] with lines 2 to 5 selected. *)
Definition editor_a : ContextRegistry.TextEditor :=
  {| ContextRegistry.document_fsPath := "src/a.ts";
     ContextRegistry.selection_isEmpty := false;
     ContextRegistry.selection_start := {| line := 1; character := 0 |};
     ContextRegistry.selection_end := {| line := 4; character := 7 |};
     ContextRegistry.selectedText := "const x = 1" |}.

(** The file is added twice, then a selection of it. *)
Definition pinning : list ContextRegistry.Command :=
  [ContextRegistry.AddFile (Some editor_a);
   ContextRegistry.AddFile (Some editor_a);
   ContextRegistry.AddSelection (Some editor_a) "token-1"].

(** *** Observations used by the run-level statements *)

(** The start of the range of the first content change of a change
    notification: what the handler passes to [incrementStrokes]. *)
Definition edit_position (n : Notification) : option (Z * Z) :=
  match n with
  | DidChange e _ _ =>
      (λ changes, (line (range_start changes), character (range_start changes)))
        <$> head (contentChanges e)
  | _ => None
  end.

Definition is_change (n : Notification) : bool :=
  match n with
  | DidChange _ _ _ => true
  | _ => false
  end.

(** *** Commands that do not reach [addContextItem] *)

(** An [addSelectionToContext] invocation that finds no editor or an
    empty selection. *)
Definition without_selection (c : ContextRegistry.Command) : bool :=
  match c with
  | ContextRegistry.AddSelection (Some ed) _ =>
      ContextRegistry.selection_isEmpty ed
  | ContextRegistry.AddSelection None _ => true
  | ContextRegistry.AddFile _ => false
  end.

(** An invocation that builds no item: no editor, or no selection. *)
Definition builds_no_item (c : ContextRegistry.Command) : bool :=
  match c with
  | ContextRegistry.AddFile None => true
  | ContextRegistry.AddFile (Some _) => false
  | _ => without_selection c
  end.

(* ===================================================================== *)
(** ** Tab commands and context keys                                      *)
(* ===================================================================== *)

Module Tabs.

(** The members of [EXTENSION_CONTEXT_NAME] that [activate] passes to
    [executeCommand("setContext", ...)]. *)
Inductive ContextName :=
| twinnyManageProviders
| twinnyEmbeddingsTab
| twinnySymmetryTab
| twinnyConversationHistory
| twinnyReviewTab
| twinnyManageTemplates.

(** The members of [WEBUI_TABS] that [activate] posts. *)
Inductive Tab :=
| providers | embeddings | symmetry | history | review | settings | chat.

(** What the tab commands act on: the value last requested for each
    context key through [executeCommand("setContext", key, value)], and
    the [data] of the [twinnySetTab] messages posted to the webview. *)
Record Ui := {
  contexts : gmap string bool;
  posted : list string
}.

Section TabCommands.

(** The string constants of [src/common/constants] are imported, not
    defined here. *)
Variable EXTENSION_CONTEXT_NAME : ContextName → string.
Variable WEBUI_TABS : Tab → string.

(** [commands.executeCommand("setContext", key, value)]. *)
Definition setContext (key : ContextName) (value : bool) (ui : Ui) : Ui :=
  {| contexts := <[EXTENSION_CONTEXT_NAME key := value]> (contexts ui);
     posted := posted ui |}.

(** [sidebarProvider.webView?.postMessage({ type: twinnySetTab, data })]:
    nothing is posted when there is no webview. *)
Definition postSetTab (hasWebView : bool) (tab : Tab) (ui : Ui) : Ui :=
  if hasWebView then
    {| contexts := contexts ui; posted := posted ui ++ [WEBUI_TABS tab] |}
  else ui.

(** The registered commands that touch context keys or the tab. *)
Inductive Command :=
| manageProviders
| embeddingsCommand
| twinnySymmetryTabCommand
| conversationHistory
| reviewCommand
| manageTemplates
| hideBackButton
| openChat.

Definition hideBackButton_handler (ui : Ui) : Ui :=
  setContext twinnyReviewTab false
    (setContext twinnyManageProviders false
       (setContext twinnySymmetryTab false
          (setContext twinnyConversationHistory false
             (setContext twinnyManageTemplates false ui)))).

(** The handler registered for each command; [hasWebView] tells whether
    [sidebarProvider.webView] is defined when the command runs. *)
Definition execute (hasWebView : bool) (ui : Ui) (c : Command) : Ui :=
  match c with
  | manageProviders =>
      postSetTab hasWebView providers (setContext twinnyManageProviders true ui)
  | embeddingsCommand =>
      postSetTab hasWebView embeddings (setContext twinnyEmbeddingsTab true ui)
  | twinnySymmetryTabCommand =>
      postSetTab hasWebView symmetry (setContext twinnySymmetryTab true ui)
  | conversationHistory =>
      postSetTab hasWebView history
        (setContext twinnyConversationHistory true ui)
  | reviewCommand =>
      postSetTab hasWebView review (setContext twinnyReviewTab true ui)
  | manageTemplates =>
      postSetTab hasWebView settings (setContext twinnyManageTemplates true ui)
  | hideBackButton => hideBackButton_handler ui
  | openChat => postSetTab hasWebView chat (hideBackButton_handler ui)
  end.

(** A sequence of commands, each with the presence of the webview at that
    moment. *)
Definition execute_all (cs : list (bool * Command)) (ui : Ui) : Ui :=
  foldl (λ ui c, execute c.1 ui c.2) ui cs.

(** The value last requested for a context key, if any. *)
Definition context (key : ContextName) (ui : Ui) : option bool :=
  contexts ui !! EXTENSION_CONTEXT_NAME key.

End TabCommands.

Definition initial : Ui := {| contexts := ∅; posted := [] |}.

(** The keys [hideBackButton] sets to false. *)
Definition reset_by_hideBackButton (key : ContextName) : bool :=
  match key with
  | twinnyEmbeddingsTab => false
  | _ => true
  end.

(** The key a tab command sets to true. *)
Definition opens (c : Command) : option ContextName :=
  match c with
  | manageProviders => Some twinnyManageProviders
  | embeddingsCommand => Some twinnyEmbeddingsTab
  | twinnySymmetryTabCommand => Some twinnySymmetryTab
  | conversationHistory => Some twinnyConversationHistory
  | reviewCommand => Some twinnyReviewTab
  | manageTemplates => Some twinnyManageTemplates
  | hideBackButton | openChat => None
  end.

(** Names for the examples. *)
Definition sample_context_name (key : ContextName) : string :=
  match key with
  | twinnyManageProviders => "twinnyManageProviders"
  | twinnyEmbeddingsTab => "twinnyEmbeddingsTab"
  | twinnySymmetryTab => "twinnySymmetryTab"
  | twinnyConversationHistory => "twinnyConversationHistory"
  | twinnyReviewTab => "twinnyReviewTab"
  | twinnyManageTemplates => "twinnyManageTemplates"
  end.

Definition sample_tab (tab : Tab) : string :=
  match tab with
  | providers => "providers"
  | embeddings => "embeddings"
  | symmetry => "symmetry"
  | history => "history"
  | review => "review"
  | settings => "settings"
  | chat => "chat"
  end.

End Tabs.


(* ===================================================================== *)
(** * Proofs                                                              *)
(* ===================================================================== *)

Lemma truthy_true s : truthy s = true ↔ s ≠ "".
Proof. unfold truthy. by rewrite bool_decide_eq_true. Qed.

Lemma truthy_false s : truthy s = false ↔ s = "".
Proof.
  unfold truthy. rewrite bool_decide_eq_false.
  split; [|by intros ->; auto]. intros H. by destruct (decide (s = "")).
Qed.

Lemma or_empty_Some s : or_empty (Some s) = s.
Proof.
  unfold or_empty. destruct (truthy s) eqn:E; [done|].
  by apply truthy_false in E.
Qed.

Lemma strict_eq_true a b : strict_eq a b = true ↔ a = b.
Proof. unfold strict_eq. by rewrite bool_decide_eq_true. Qed.

Lemma has_true id (set : gset string) : has id set = true ↔ id ∈ set.
Proof. unfold has. by rewrite bool_decide_eq_true. Qed.

Lemma has_false id (set : gset string) : has id set = false ↔ id ∉ set.
Proof. unfold has. by rewrite bool_decide_eq_false. Qed.

Ltac unfold_handler :=
  cbv [onDidChangeTextDocument call try_catch mbind M_bind bind mret M_ret
       ret return_ get modify setAcceptedLastCompletion incrementStrokes
       recordCompletionInteraction console_error os_homedir].

Section ChangeHandler.

Variable getLineBreakCount : string → Z.

Local Abbreviation onChange := (onDidChangeTextDocument getLineBreakCount).

(** A notification without content changes leaves through the first
    [return]. *)
Lemma onChange_no_changes e p w s :
  head (contentChanges e) = None → onChange e p w s = (Normal tt, s).
Proof. intros H. unfold_handler. by rewrite H. Qed.

(** Everything a run with a content change does, in closed form. *)
Lemma onChange_closed_form e p w s changes :
  head (contentChanges e) = Some changes →
  let l := line (range_start changes) in
  let ch := character (range_start changes) in
  let set := recentCompletionIdsSet s in
  let queue := recentCompletionIdsQueue s in
  let ins := if path_mismatch e p then None else remembered p w set in
  onChange e p w s =
    (Normal tt,
     {| recentCompletionIdsSet :=
          match ins with Some id => (remember id set queue).1 | None => set end;
        recentCompletionIdsQueue :=
          match ins with Some id => (remember id set queue).2 | None => queue end;
        fileInteractionCache :=
          FileInteractionCache.incrementStrokes l ch (fileInteractionCache s);
        acceptedLastCompletion := coarse_flag getLineBreakCount changes p;
        calls :=
          calls s
          ++ SetAcceptedLastCompletion (coarse_flag getLineBreakCount changes p)
          :: (if path_mismatch e p then []
              else feedback_calls changes p w set)
          ++ [IncrementStrokes l ch] |}).
Proof.
  intros Hh. cbn zeta.
  unfold_handler. rewrite Hh.
  fold (path_mismatch e p). fold (coarse_flag getLineBreakCount changes p).
  unfold feedback_calls, remembered, feedback_record, record_call.
  rewrite !or_empty_Some.
  destruct (path_mismatch e p); cbn.
  { unfold log_call, with_cache; cbn. by rewrite <-app_assoc. }
  destruct (lastCompletionId p) as [id|]; cbn;
    [destruct (truthy id); cbn|];
    [destruct (homedirThrows w); cbn;
     [|destruct (has id (recentCompletionIdsSet s)); cbn]| |].
  all: destruct (hasRecordCompletionInteraction p); cbn.
  all: try (destruct (recordThrows w); cbn).
  all: try (destruct (fallbackRecordThrows w); cbn).
  all: unfold log_call, with_cache, remember_in_state; cbn.
  all: rewrite <-?app_assoc; cbn; reflexivity.
Qed.

End ChangeHandler.

(* ===================================================================== *)
(** ** The de-duplication cache                                           *)
(* ===================================================================== *)

Lemma remember_present id (set : gset string) queue :
  id ∈ set → remember id set queue = (set, queue).
Proof. intros H. unfold remember. by rewrite (proj2 (has_true _ _) H). Qed.

(** Inserting a new id appends it and keeps the last
    [MAX_RECENT_COMPLETION_IDS] entries of the queue. *)
Lemma remember_fresh id (set : gset string) queue :
  id ∉ set → id ≠ "" → cache_ok set queue →
  (remember id set queue).2
    = drop (length queue + 1 - MAX_RECENT_COMPLETION_IDS) (queue ++ [id])
  ∧ cache_ok (remember id set queue).1 (remember id set queue).2.
Proof.
  intros Hid Hne (Hnd & Hmem & Hlen & Hall).
  assert (Hq : id ∉ queue) by (by rewrite <-Hmem).
  unfold remember. rewrite (proj2 (has_false _ _) Hid).
  destruct (decide _) as [Hgt|Hle].
  - rewrite length_app in Hgt. cbn in Hgt.
    destruct queue as [|oldest rest]; [unfold MAX_RECENT_COMPLETION_IDS in Hgt; cbn in Hgt; lia|].
    cbn [app]. cbn in Hgt, Hlen.
    assert (length rest + 1 = MAX_RECENT_COMPLETION_IDS) as Hr by lia.
    apply Forall_cons in Hall as [Ho Hall].
    rewrite (proj2 (truthy_true _) Ho). cbn [fst snd].
    apply NoDup_cons in Hnd as [Ho' Hnd].
    apply not_elem_of_cons in Hq as [Hio Hir].
    split.
    + cbn [length]. replace (S (length rest) + 1 - _) with 1 by lia. done.
    + split_and!.
      * apply NoDup_app. split_and!; [done| |apply NoDup_singleton].
        intros x Hx ->%list_elem_of_singleton. done.
      * intros x. rewrite elem_of_difference, elem_of_union, Hmem,
          !elem_of_singleton, elem_of_cons, elem_of_app, list_elem_of_singleton.
        split.
        -- intros [[[-> | ?] | ->] ?]; [done|by left|by right].
        -- intros [Hx| ->]; [|by split; [right|]].
           split; [left; by right|]. by intros ->.
      * rewrite length_app. cbn. lia.
      * apply Forall_app. split; [done|]. by apply Forall_singleton.
  - rewrite length_app in Hle. cbn in Hle. cbn [fst snd].
    split.
    + replace (length queue + 1 - _) with 0 by lia. done.
    + split_and!.
      * apply NoDup_app. split_and!; [done| |apply NoDup_singleton].
        intros x Hx ->%list_elem_of_singleton. done.
      * intros x. rewrite elem_of_union, Hmem, elem_of_singleton,
          elem_of_app, list_elem_of_singleton. done.
      * rewrite length_app. cbn. lia.
      * apply Forall_app. split; [done|]. by apply Forall_singleton.
Qed.

Lemma cache_ok_empty : cache_ok ∅ [].
Proof.
  split_and!; [apply NoDup_nil_2| |cbn; lia|done].
  intros x. rewrite elem_of_nil. set_solver.
Qed.

Lemma cache_ok_remember id (set : gset string) queue :
  id ≠ "" → cache_ok set queue →
  cache_ok (remember id set queue).1 (remember id set queue).2.
Proof.
  intros Hne Hok. destruct (decide (id ∈ set)) as [Hin|Hnin].
  - by rewrite remember_present.
  - by apply remember_fresh.
Qed.

(** The set has as many members as the queue has entries. *)
Lemma cache_ok_size (set : gset string) queue :
  cache_ok set queue → size set = length queue.
Proof.
  intros (Hnd & Hmem & _ & _).
  assert (set = list_to_set queue) as ->.
  { apply set_eq. intros x. by rewrite Hmem, elem_of_list_to_set. }
  by apply size_list_to_set.
Qed.

(** Appending to the window of the last [n] entries and cutting it back to
    [n] gives the window of the extended list. *)
Lemma window_snoc {A} (l : list A) (x : A) (n : nat) :
  0 < n →
  drop (length (drop (length l - n) l) + 1 - n) (drop (length l - n) l ++ [x])
  = drop (length (l ++ [x]) - n) (l ++ [x]).
Proof.
  intros Hn. rewrite length_drop, length_app. cbn [length].
  destruct (decide (length l < n)) as [Hlt|Hge].
  - replace (length l - n) with 0 by lia.
    replace (length l - 0 + 1 - n) with 0 by lia.
    replace (length l + 1 - n) with 0 by lia. done.
  - replace (length l - (length l - n) + 1 - n) with 1 by lia.
    replace (length l + 1 - n) with (S (length l - n)) by lia.
    rewrite (drop_app_le l [x] (S _)) by lia.
    rewrite drop_app_le by (rewrite length_drop; lia).
    by rewrite drop_drop, Nat.add_1_r.
Qed.

Lemma remember_all_snoc ids id :
  remember_all (ids ++ [id])
  = remember id (remember_all ids).1 (remember_all ids).2.
Proof. unfold remember_all. by rewrite foldl_app. Qed.

(** After inserting distinct non-empty ids into an empty cache, the queue
    is the last [MAX_RECENT_COMPLETION_IDS] of them. *)
Lemma remember_all_window ids :
  NoDup ids → Forall (λ id, id ≠ "") ids →
  (remember_all ids).2 = drop (length ids - MAX_RECENT_COMPLETION_IDS) ids
  ∧ cache_ok (remember_all ids).1 (remember_all ids).2.
Proof.
  induction ids as [|id ids IH] using rev_ind; intros Hnd Hall.
  - split; [done|apply cache_ok_empty].
  - apply NoDup_app in Hnd as (Hnd & Hdisj & _).
    apply Forall_app in Hall as [Hall Hid]. rewrite Forall_singleton in Hid.
    destruct (IH Hnd Hall) as [Hq Hok].
    assert (id ∉ (remember_all ids).1) as Hfresh.
    { destruct Hok as (_ & Hmem & _). rewrite Hmem, Hq.
      intros Hin%(subseteq_drop _ ids). eapply Hdisj; [done|].
      by apply list_elem_of_singleton. }
    rewrite remember_all_snoc.
    destruct (remember_fresh id _ _ Hfresh Hid Hok) as [Hq' Hok'].
    split; [|done]. rewrite Hq', Hq.
    apply window_snoc. unfold MAX_RECENT_COMPLETION_IDS. lia.
Qed.

(* ===================================================================== *)
(** ** One notification                                                   *)
(* ===================================================================== *)

Lemma record_calls_app cs1 cs2 :
  record_calls (cs1 ++ cs2) = record_calls cs1 ++ record_calls cs2.
Proof. apply omap_app. Qed.

Lemma recorded_ids_app cs1 cs2 :
  recorded_ids (cs1 ++ cs2) = recorded_ids cs1 ++ recorded_ids cs2.
Proof. unfold recorded_ids. by rewrite record_calls_app, fmap_app. Qed.

Lemma recorded_ids_cons c cs :
  recorded_ids (c :: cs) = recorded_ids [c] ++ recorded_ids cs.
Proof. apply (recorded_ids_app [c]). Qed.

Lemma stroke_calls_app cs1 cs2 :
  stroke_calls (cs1 ++ cs2) = stroke_calls cs1 ++ stroke_calls cs2.
Proof. apply omap_app. Qed.

Lemma flag_calls_app cs1 cs2 :
  flag_calls (cs1 ++ cs2) = flag_calls cs1 ++ flag_calls cs2.
Proof. apply omap_app. Qed.

Lemma new_calls_app s s' cs : calls s' = calls s ++ cs → new_calls s s' = cs.
Proof. intros H. unfold new_calls. by rewrite H, drop_app_length. Qed.

(** The feedback block makes no stroke and no flag call. *)
Lemma feedback_calls_strokes changes p w set :
  stroke_calls (feedback_calls changes p w set) = [].
Proof.
  unfold feedback_calls.
  repeat (case_match; try done).
Qed.

Lemma feedback_calls_flags changes p w set :
  flag_calls (feedback_calls changes p w set) = [].
Proof.
  unfold feedback_calls.
  repeat (case_match; try done).
Qed.

(** Every record the feedback block hands over is the one computed from
    the change and [lastCompletionText], for the provider's id. *)
Lemma feedback_calls_records changes p w set r :
  r ∈ record_calls (feedback_calls changes p w set) →
  ∃ id, lastCompletionId p = Some id ∧ id ≠ ""
        ∧ hasRecordCompletionInteraction p = true
        ∧ r = feedback_record changes p id.
Proof.
  unfold feedback_calls.
  destruct (lastCompletionId p) as [id|]; [|by intros ?%elem_of_nil].
  destruct (truthy id) eqn:Hid; [|by intros ?%elem_of_nil].
  apply truthy_true in Hid.
  destruct (hasRecordCompletionInteraction p);
    destruct (homedirThrows w), (has id set), (recordThrows w),
      (fallbackRecordThrows w); cbn;
    rewrite ?elem_of_cons, ?elem_of_nil; intros H;
    exists id; split_and!; try done; tauto.
Qed.

(** Without an exception the feedback block hands over a record exactly
    when it puts the id into the cache. *)
Lemma feedback_calls_no_throw changes p w set :
  homedirThrows w = false → recordThrows w = false →
  recorded_ids (feedback_calls changes p w set)
  = option_list (remembered p w set).
Proof.
  intros Hh Hr. unfold feedback_calls, remembered. rewrite Hh, Hr.
  destruct (lastCompletionId p) as [id|]; [|done].
  destruct (truthy id), (has id set), (hasRecordCompletionInteraction p); done.
Qed.

Lemma remembered_Some p w set id :
  remembered p w set = Some id →
  lastCompletionId p = Some id ∧ id ≠ "" ∧ (id ∉ set)
  ∧ hasRecordCompletionInteraction p = true.
Proof.
  unfold remembered. destruct (lastCompletionId p) as [id'|]; [|done].
  destruct (truthy id') eqn:Ht, (homedirThrows w), (has id' set) eqn:Hhas,
    (hasRecordCompletionInteraction p), (recordThrows w); try done.
  cbn. intros [= ->]. apply truthy_true in Ht. by apply has_false in Hhas.
Qed.

Section Steps.

Variable getLineBreakCount : string → Z.

Local Abbreviation next := (step getLineBreakCount).
Local Abbreviation runs := (run getLineBreakCount).

Lemma run_snoc ns n s : runs (ns ++ [n]) s = next (runs ns s) n.
Proof. unfold run. by rewrite foldl_app. Qed.

(** Closing and opening a document touches neither the cache nor the call
    log. *)
Lemma step_close s f :
  next s (DidClose f)
  = with_cache (FileInteractionCache.delete f)
      (with_cache FileInteractionCache.endSession s).
Proof. done. Qed.

Lemma step_open s f :
  next s (DidOpen f)
  = with_cache FileInteractionCache.incrementVisits
      (with_cache (FileInteractionCache.startSession f) s).
Proof. done. Qed.

(** What a notification does to the cache. *)
Lemma step_cache s n :
  (recentCompletionIdsSet (next s n), recentCompletionIdsQueue (next s n))
  = match inserted_by n (recentCompletionIdsSet s) with
    | Some id =>
        remember id (recentCompletionIdsSet s) (recentCompletionIdsQueue s)
    | None => (recentCompletionIdsSet s, recentCompletionIdsQueue s)
    end.
Proof.
  destruct n as [e p w|f|f]; [|done..].
  unfold step, handle, inserted_by.
  destruct (head (contentChanges e)) as [changes|] eqn:Hh.
  - rewrite (onChange_closed_form _ _ _ _ _ _ Hh). cbn.
    destruct (path_mismatch e p); [done|].
    destruct (remembered p w _); [|done]. by destruct (remember _ _ _).
  - by rewrite onChange_no_changes.
Qed.

Lemma inserted_by_Some n set id :
  inserted_by n set = Some id →
  id ≠ "" ∧ (id ∉ set) ∧ qualifies id n = true.
Proof.
  destruct n as [e p w|f|f]; [|done..]. cbn.
  destruct (head (contentChanges e)) as [changes|] eqn:Hh; [|done].
  destruct (path_mismatch e p) eqn:Hm; [done|].
  intros (Hid & Hne & Hnin & Hfn)%remembered_Some.
  split_and!; [done..|].
  rewrite Hid, Hfn, (proj2 (truthy_true _) Hne).
  rewrite !bool_decide_eq_true_2; [done..|]. by eexists.
Qed.

Lemma qualifies_inserted c n set :
  qualifies c n = true → no_throw n → c ∉ set → inserted_by n set = Some c.
Proof.
  destruct n as [e p w|f|f]; [|done..]. cbn.
  intros ((((Hh & Hm)%andb_true_iff & Hid)%andb_true_iff
            & Ht)%andb_true_iff & Hfn)%andb_true_iff [Hhome Hrec] Hnin.
  apply bool_decide_eq_true in Hh as [changes Hh].
  apply bool_decide_eq_true in Hid.
  apply negb_true_iff in Hm.
  rewrite Hh, Hm. unfold remembered.
  by rewrite Hid, Ht, Hhome, Hrec, Hfn, (proj2 (has_false _ _) Hnin).
Qed.

(** The records a notification adds when nothing raises. *)
Lemma step_recorded_no_throw s n :
  no_throw n →
  recorded_ids (calls (next s n))
  = recorded_ids (calls s)
    ++ option_list (inserted_by n (recentCompletionIdsSet s)).
Proof.
  destruct n as [e p w|f|f]; [|intros _; cbn; by rewrite app_nil_r..].
  intros [Hhome Hrec].
  unfold step, handle, inserted_by.
  destruct (head (contentChanges e)) as [changes|] eqn:Hh.
  - rewrite (onChange_closed_form _ _ _ _ _ _ Hh). cbn [snd calls].
    rewrite recorded_ids_app. f_equal.
    rewrite recorded_ids_cons, recorded_ids_app.
    destruct (path_mismatch e p); [done|].
    rewrite feedback_calls_no_throw by done. cbn. by rewrite app_nil_r.
  - rewrite onChange_no_changes by done. cbn. by rewrite app_nil_r.
Qed.

Lemma step_cache_ok s n :
  cache_ok (recentCompletionIdsSet s) (recentCompletionIdsQueue s) →
  cache_ok (recentCompletionIdsSet (next s n))
           (recentCompletionIdsQueue (next s n)).
Proof.
  intros Hok. pose proof (step_cache s n) as Hc.
  destruct (inserted_by n _) as [id|] eqn:Hins.
  - apply inserted_by_Some in Hins as (Hne & _ & _).
    pose proof (cache_ok_remember id _ _ Hne Hok) as Hok'.
    rewrite <-Hc in Hok'. done.
  - by injection Hc as -> ->.
Qed.

Lemma run_cache_ok ns s :
  cache_ok (recentCompletionIdsSet s) (recentCompletionIdsQueue s) →
  cache_ok (recentCompletionIdsSet (runs ns s))
           (recentCompletionIdsQueue (runs ns s)).
Proof.
  revert s. induction ns as [|n ns IH]; intros s Hok; [done|].
  cbn. apply IH. by apply step_cache_ok.
Qed.

End Steps.

(* ===================================================================== *)
(** ** Lists of recorded ids                                              *)
(* ===================================================================== *)

Lemma spaced_nil n : spaced n [].
Proof. intros i j c _ Hi. by rewrite lookup_nil in Hi. Qed.

(** Appending an id that is not among the last [n] keeps the spacing. *)
Lemma spaced_snoc n ids c :
  spaced n ids → c ∉ drop (length ids - n) ids → spaced n (ids ++ [c]).
Proof.
  intros Hsp Hc i j x Hij Hi Hj.
  assert (j < length (ids ++ [c])) as Hjlen by (by eapply lookup_lt_Some).
  rewrite length_app in Hjlen. cbn in Hjlen.
  rewrite lookup_app_l in Hi by lia.
  destruct (decide (j < length ids)) as [Hlt|Hge].
  - rewrite lookup_app_l in Hj by done. by eapply Hsp.
  - assert (j = length ids) as -> by lia.
    rewrite list_lookup_middle in Hj by done. injection Hj as <-.
    destruct (decide (i + n < length ids)) as [|Hnear]; [done|].
    exfalso. apply Hc. apply list_elem_of_lookup.
    exists (i - (length ids - n)). rewrite lookup_drop.
    replace (length ids - n + (i - (length ids - n))) with i by lia. done.
Qed.

(** A list with two elements satisfying [P] has them at two positions. *)
Lemma filter_two_positions {A} (P : A → Prop) `{!∀ x, Decision (P x)}
    (l : list A) :
  2 ≤ length (filter P l) →
  ∃ i j x y, i < j ∧ l !! i = Some x ∧ l !! j = Some y ∧ P x ∧ P y.
Proof.
  induction l as [|a l IH]; [cbn; lia|].
  rewrite filter_cons. destruct (decide (P a)) as [Ha|Ha]; cbn [length].
  - intros Hlen.
    destruct (filter P l) as [|y rest] eqn:Hf; [cbn in Hlen; lia|].
    assert (y ∈ filter P l) as Hy by (rewrite Hf; left).
    apply list_elem_of_filter in Hy as [HPy Hy].
    apply list_elem_of_lookup in Hy as [j Hj].
    exists 0, (S j), a, y. split_and!; [lia|done..].
  - intros Hlen. destruct (IH Hlen) as (i & j & x & y & Hij & Hi & Hj & Hx & Hy).
    exists (S i), (S j), x, y. split_and!; [lia|done..].
Qed.

(** With spacing [n], an id recorded twice has at least [n] distinct other
    ids recorded after its first record. *)
Lemma spaced_few_others n (ids : list string) c :
  spaced n ids →
  size (list_to_set (filter (λ id, id ≠ c) ids) : gset string) < n →
  length (filter (λ id, id = c) ids) ≤ 1.
Proof.
  intros Hsp Hfew.
  destruct (decide (length (filter (λ id, id = c) ids) ≤ 1)) as [|Hmany];
    [done|exfalso].
  destruct (filter_two_positions (λ id, id = c) ids)
    as (i & j & x & y & Hij & Hi & Hj & -> & ->); [lia|].
  pose proof (Hsp i j c Hij Hi Hj) as Hfar.
  assert (j < length ids) as Hjlen by (by eapply lookup_lt_Some).
  set (W := take n (drop (S i) ids)).
  assert (∀ a x, W !! a = Some x → ids !! (S i + a) = Some x ∧ a < n) as HW.
  { intros a x [Ha ?]%lookup_take_Some. by rewrite lookup_drop in Ha. }
  assert (length W = n) as Hlen.
  { unfold W. rewrite length_take, length_drop. lia. }
  assert (NoDup W) as Hnd.
  { apply NoDup_alt. intros a b x [Ha Han]%HW [Hb Hbn]%HW.
    destruct (lt_eq_lt_dec a b) as [[Hab|Hab]|Hab]; [|done|].
    - pose proof (Hsp (S i + a) (S i + b) x ltac:(lia) Ha Hb). lia.
    - pose proof (Hsp (S i + b) (S i + a) x ltac:(lia) Hb Ha). lia. }
  assert ((list_to_set W : gset string)
            ⊆ list_to_set (filter (λ id, id ≠ c) ids)) as Hsub.
  { intros x. rewrite !elem_of_list_to_set, list_elem_of_filter.
    intros [a Ha]%list_elem_of_lookup. destruct (HW a x Ha) as [Hx Han].
    split; [|by eapply list_elem_of_lookup_2].
    intros ->. pose proof (Hsp i (S i + a) c ltac:(lia) Hi Hx). lia. }
  apply subseteq_size in Hsub.
  rewrite (size_list_to_set W) in Hsub by done. lia.
Qed.

(* ===================================================================== *)
(** ** Runs of notifications                                              *)
(* ===================================================================== *)

Section Runs.

Variable getLineBreakCount : string → Z.

Local Abbreviation next := (step getLineBreakCount).
Local Abbreviation runs := (run getLineBreakCount).

(** Invariant of runs in which nothing raises: the queue holds the last
    [MAX_RECENT_COMPLETION_IDS] recorded ids. *)
Lemma run_no_throw_invariant ns :
  Forall no_throw ns →
  let s := runs ns initial_state in
  let ids := recorded_ids (calls s) in
  cache_ok (recentCompletionIdsSet s) (recentCompletionIdsQueue s)
  ∧ recentCompletionIdsQueue s
    = drop (length ids - MAX_RECENT_COMPLETION_IDS) ids
  ∧ spaced MAX_RECENT_COMPLETION_IDS ids.
Proof.
  induction ns as [|n ns IH] using rev_ind; intros Hall; cbn zeta.
  { split_and!; [apply cache_ok_empty|done|apply spaced_nil]. }
  apply Forall_app in Hall as [Hall Hn]. rewrite Forall_singleton in Hn.
  destruct (IH Hall) as (Hok & Hq & Hsp). clear IH.
  rewrite run_snoc. set (s := runs ns initial_state) in *.
  pose proof (step_cache getLineBreakCount s n) as Hc.
  rewrite (step_recorded_no_throw _ s n Hn).
  split; [by apply step_cache_ok|].
  destruct (inserted_by n _) as [id|] eqn:Hins; cbn [option_list].
  - apply inserted_by_Some in Hins as (Hne & Hnin & _).
    destruct (remember_fresh id _ _ Hnin Hne Hok) as [Hq' _].
    rewrite <-Hc in Hq'. cbn [snd] in Hq'. split.
    + rewrite Hq', Hq. apply window_snoc.
      unfold MAX_RECENT_COMPLETION_IDS. lia.
    + apply spaced_snoc; [done|]. rewrite <-Hq.
      destruct Hok as (_ & Hmem & _). by rewrite <-Hmem.
  - injection Hc as _ Hc. rewrite Hc, app_nil_r. done.
Qed.

(** A record for [c] comes from a notification that qualifies for [c]. *)
Lemma recorded_qualifies ns c :
  Forall no_throw ns →
  c ∈ recorded_ids (calls (runs ns initial_state)) →
  Exists (λ n, qualifies c n = true) ns.
Proof.
  induction ns as [|n ns IH] using rev_ind; intros Hall.
  { by intros ?%elem_of_nil. }
  apply Forall_app in Hall as [Hall Hn]. rewrite Forall_singleton in Hn.
  rewrite run_snoc, (step_recorded_no_throw _ _ n Hn), elem_of_app.
  rewrite Exists_app. intros [Hin|Hin]; [left; by apply IH|right].
  apply Exists_cons_hd.
  destruct (inserted_by n _) as [id|] eqn:Hins; [|by apply elem_of_nil in Hin].
  apply list_elem_of_singleton in Hin as ->.
  by apply inserted_by_Some in Hins as (_ & _ & ?).
Qed.

(** If some notification qualifies for [c], a record for [c] is made. *)
Lemma qualifies_recorded ns c :
  Forall no_throw ns →
  Exists (λ n, qualifies c n = true) ns →
  c ∈ recorded_ids (calls (runs ns initial_state)).
Proof.
  induction ns as [|n ns IH] using rev_ind; intros Hall.
  { by intros ?%Exists_nil. }
  apply Forall_app in Hall as [Hall Hn].
  pose proof (run_no_throw_invariant ns Hall) as (Hok & Hq & _).
  rewrite Forall_singleton in Hn.
  rewrite run_snoc, (step_recorded_no_throw _ _ n Hn), elem_of_app.
  rewrite Exists_app. intros [Hex|Hex]; [left; by apply IH|].
  apply Exists_cons in Hex as [Hqual|?%Exists_nil]; [|done].
  set (s := runs ns initial_state) in *.
  destruct (decide (c ∈ recentCompletionIdsSet s)) as [Hin|Hnin].
  - left. destruct Hok as (_ & Hmem & _).
    apply Hmem in Hin. rewrite Hq in Hin. by eapply subseteq_drop.
  - right. rewrite (qualifies_inserted c n _ Hqual Hn Hnin). cbn.
    by apply list_elem_of_singleton.
Qed.

End Runs.

(* ===================================================================== *)
(** ** One edit: what the change handler does                             *)
(* ===================================================================== *)

Section Edits.

Variable getLineBreakCount : string → Z.

Local Abbreviation onChange := (onDidChangeTextDocument getLineBreakCount).
Local Abbreviation next := (step getLineBreakCount).

(** The calls made for one edit. *)
Lemma new_calls_change e p w s changes :
  head (contentChanges e) = Some changes →
  new_calls s (next s (DidChange e p w))
  = SetAcceptedLastCompletion (coarse_flag getLineBreakCount changes p)
    :: (if path_mismatch e p then []
        else feedback_calls changes p w (recentCompletionIdsSet s))
    ++ [IncrementStrokes (line (range_start changes))
                         (character (range_start changes))].
Proof.
  intros Hh. apply new_calls_app.
  unfold step, handle.
  by rewrite (onChange_closed_form _ _ _ _ _ _ Hh).
Qed.

Lemma path_mismatch_false e p :
  path_mismatch e p = false ↔ fsPath e ≠ "" ∧ _document p = Some (fsPath e).
Proof.
  unfold path_mismatch. rewrite or_empty_Some.
  rewrite !orb_false_iff, !negb_false_iff, !truthy_true, strict_eq_true.
  split.
  - intros [[Hp Hd] Heq]. split; [done|].
    destruct (_document p) as [d|]; [|done].
    cbn in Hd, Heq. destruct (truthy d); [by subst|done].
  - intros [Hp ->]. rewrite or_empty_Some. done.
Qed.

(** Every record produced for an edit is the one computed from the change
    and [lastCompletionText], for the provider's [lastCompletionId]. *)
Lemma edit_records e p w s changes r :
  head (contentChanges e) = Some changes →
  r ∈ record_calls (new_calls s (next s (DidChange e p w))) →
  ∃ id, lastCompletionId p = Some id ∧ r = feedback_record changes p id.
Proof.
  intros Hh. rewrite (new_calls_change _ _ _ _ _ Hh). cbn.
  rewrite record_calls_app, app_nil_r.
  destruct (path_mismatch e p); [by intros ?%elem_of_nil|].
  intros (id & Hid & _ & _ & Hr)%feedback_calls_records. by exists id.
Qed.

Lemma feedback_record_accepted changes p id a u i :
  (a, u, i) = feedback_record changes p id →
  (a = true ↔ text changes ≠ "" ∧ text changes = lastCompletionText p)
  ∧ (a = false → u = Some (text changes))
  ∧ (a = true → u = None)
  ∧ i = id.
Proof.
  unfold feedback_record. intros [= -> -> ->].
  split_and!; [|by intros ->..|done].
  rewrite !andb_true_iff, !truthy_true, strict_eq_true.
  split; [tauto|]. intros [Hne Heq]. split_and!; [done| |done].
  by rewrite <-Heq.
Qed.

(** C10: a change notification whose [contentChanges] is empty changes
    nothing: the state after the handler is the state before it (no stroke
    accounting, no feedback record, same cache, same flag) and the handler
    ends normally. *)
Theorem no_content_change_no_effect e p w s :
  contentChanges e = [] →
  onDidChangeTextDocument getLineBreakCount e p w s = (Normal tt, s)
  ∧ new_calls s (next s (DidChange e p w)) = [].
Proof.
  intros H.
  assert (onDidChangeTextDocument getLineBreakCount e p w s = (Normal tt, s))
    as Hrun by (apply onChange_no_changes; by rewrite H).
  split; [done|]. unfold step, handle, new_calls. rewrite Hrun. cbn [snd].
  apply drop_all.
Qed.

(** C6: for every edit (a notification with a content change),
    [incrementStrokes] is called exactly once, with the line and character
    of the start of the edit's range, whatever branch is taken and whatever
    raises. *)
Theorem strokes_once_per_edit e p w s changes :
  head (contentChanges e) = Some changes →
  stroke_calls (new_calls s (next s (DidChange e p w)))
  = [(line (range_start changes), character (range_start changes))].
Proof.
  intros Hh. rewrite (new_calls_change _ _ _ _ _ Hh).
  cbn. rewrite stroke_calls_app.
  destruct (path_mismatch e p); [done|].
  by rewrite feedback_calls_strokes.
Qed.

(** C5: when the changed document is not the document of the last
    completion, or when the provider has no [lastCompletionId], the edit
    produces no feedback record, the handler ends normally, and the stroke
    is still forwarded to [incrementStrokes]. *)
Theorem unrelated_edit_not_recorded e p w s changes :
  head (contentChanges e) = Some changes →
  _document p ≠ Some (fsPath e) ∨ lastCompletionId p = None →
  (onDidChangeTextDocument getLineBreakCount e p w s).1 = Normal tt
  ∧ record_calls (new_calls s (next s (DidChange e p w))) = []
  ∧ stroke_calls (new_calls s (next s (DidChange e p w)))
    = [(line (range_start changes), character (range_start changes))].
Proof.
  intros Hh Hcase. split_and!.
  - by rewrite (onChange_closed_form _ _ _ _ _ _ Hh).
  - rewrite (new_calls_change _ _ _ _ _ Hh). cbn. rewrite record_calls_app.
    destruct (path_mismatch e p) eqn:Hm; [done|].
    apply path_mismatch_false in Hm as [_ Hd].
    destruct Hcase as [Hne|Hid]; [done|].
    unfold feedback_calls. by rewrite Hid.
  - rewrite (new_calls_change _ _ _ _ _ Hh). cbn. rewrite stroke_calls_app.
    destruct (path_mismatch e p); [done|].
    by rewrite feedback_calls_strokes.
Qed.

(** C2 (amended): every feedback record produced for an edit has
    [accepted = true] exactly when the inserted text is non-empty and
    equal to [lastCompletionText]; when [accepted] is false, [userText] is
    the inserted text, and when it is true, [userText] is absent.  The
    record carries the provider's [lastCompletionId]. *)
Theorem accepted_iff_nonempty_and_equal e p w s changes a u i :
  head (contentChanges e) = Some changes →
  (a, u, i) ∈ record_calls (new_calls s (next s (DidChange e p w))) →
  (a = true ↔ text changes ≠ "" ∧ text changes = lastCompletionText p)
  ∧ (a = false → u = Some (text changes))
  ∧ (a = true → u = None)
  ∧ lastCompletionId p = Some i.
Proof.
  intros Hh (id & Hid & Hr)%(edit_records _ _ _ _ _ _ Hh).
  destruct (feedback_record_accepted _ _ _ _ _ _ Hr) as (? & ? & ? & ->).
  done.
Qed.

(** C8: on every edit the flag passed to [setAcceptedLastCompletion] (and
    stored) is true exactly when the inserted text is non-empty, equals
    [lastCompletionText], and [getLineBreakCount] of that text exceeds 1;
    and whenever a feedback record is produced for the same edit, a true
    flag comes with [accepted = true] in the record. *)
Theorem coarse_flag_agrees_with_record e p w s changes :
  head (contentChanges e) = Some changes →
  ∃ flag,
    flag_calls (new_calls s (next s (DidChange e p w))) = [flag]
    ∧ acceptedLastCompletion (next s (DidChange e p w)) = flag
    ∧ (flag = true ↔
         text changes ≠ "" ∧ text changes = lastCompletionText p
         ∧ (1 < getLineBreakCount (lastCompletionText p))%Z)
    ∧ (∀ a u i,
         (a, u, i) ∈ record_calls (new_calls s (next s (DidChange e p w))) →
         flag = true → a = true).
Proof.
  intros Hh. exists (coarse_flag getLineBreakCount changes p).
  split_and!.
  - rewrite (new_calls_change _ _ _ _ _ Hh). cbn. rewrite flag_calls_app.
    destruct (path_mismatch e p); [done|].
    by rewrite feedback_calls_flags.
  - unfold step, handle.
    by rewrite (onChange_closed_form _ _ _ _ _ _ Hh).
  - unfold coarse_flag.
    rewrite !andb_true_iff, !truthy_true, strict_eq_true, bool_decide_eq_true.
    split; [tauto|]. intros (Hne & Heq & Hm). split_and!; [done| |done..].
    by rewrite <-Heq.
  - intros a u i (id & _ & Hr)%(edit_records _ _ _ _ _ _ Hh) Hflag.
    destruct (feedback_record_accepted _ _ _ _ _ _ Hr) as (Hacc & _).
    apply Hacc. unfold coarse_flag in Hflag.
    rewrite !andb_true_iff, !truthy_true, strict_eq_true in Hflag. tauto.
Qed.

End Edits.

(* ===================================================================== *)
(** ** Failure of the recording path                                      *)
(* ===================================================================== *)

Lemma feedback_calls_first_attempt_raises changes p w set id :
  lastCompletionId p = Some id → id ≠ "" →
  hasRecordCompletionInteraction p = true →
  homedirThrows w = false → id ∉ set → recordThrows w = true →
  feedback_calls changes p w set
  = [record_call (feedback_record changes p id);
     ConsoleError
       "Failed to inspect/write completion interaction for completionId";
     record_call (feedback_record changes p id)]
    ++ (if fallbackRecordThrows w then
          [ConsoleError "Failed to fallback record completion interaction"]
        else []).
Proof.
  intros Hid Hne Hfn Hh Hnin Hr. unfold feedback_calls.
  by rewrite Hid, (proj2 (truthy_true _) Hne), Hfn, Hh, Hr,
    (proj2 (has_false _ _) Hnin).
Qed.

Lemma feedback_calls_inspection_raises changes p w set id :
  lastCompletionId p = Some id → id ≠ "" →
  hasRecordCompletionInteraction p = true →
  homedirThrows w = true →
  feedback_calls changes p w set
  = [ConsoleError
       "Failed to inspect/write completion interaction for completionId";
     record_call (feedback_record changes p id)]
    ++ (if fallbackRecordThrows w then
          [ConsoleError "Failed to fallback record completion interaction"]
        else []).
Proof.
  intros Hid Hne Hfn Hh. unfold feedback_calls.
  by rewrite Hid, (proj2 (truthy_true _) Hne), Hfn, Hh.
Qed.

Lemma record_calls_record_call r : record_calls [record_call r] = [r].
Proof. by destruct r as [[a u] i]. Qed.

(** C7: the change handler never ends with an exception, whatever
    [os.homedir()] and the two calls of [recordCompletionInteraction] do.
    For an edit in the completion's document with a known id: if the first
    hand-over raises, the error is logged and the same record is handed
    over once more; if inspection raises before it, the error is logged
    and the record is handed over once; an exception of that second call
    is logged and dropped.  In every case the cache is left as it was and
    the last call of the handler is the stroke accounting of the edit. *)
Theorem change_handler_never_throws getLineBreakCount e p w s :
  let s' := step getLineBreakCount s (DidChange e p w) in
  (onDidChangeTextDocument getLineBreakCount e p w s).1 = Normal tt
  ∧ (∀ changes,
       head (contentChanges e) = Some changes →
       last (calls s')
       = Some (IncrementStrokes (line (range_start changes))
                 (character (range_start changes))))
  ∧ (∀ changes id,
       head (contentChanges e) = Some changes →
       path_mismatch e p = false →
       lastCompletionId p = Some id → id ≠ "" →
       hasRecordCompletionInteraction p = true →
       let r := feedback_record changes p id in
       let retry_errors :=
         if fallbackRecordThrows w then
           ["Failed to fallback record completion interaction"]
         else [] in
       (homedirThrows w = false → id ∉ recentCompletionIdsSet s →
        recordThrows w = true →
        record_calls (new_calls s s') = [r; r]
        ∧ error_calls (new_calls s s')
          = "Failed to inspect/write completion interaction for completionId"
            :: retry_errors
        ∧ recentCompletionIdsQueue s' = recentCompletionIdsQueue s
        ∧ recentCompletionIdsSet s' = recentCompletionIdsSet s)
       ∧ (homedirThrows w = true →
          record_calls (new_calls s s') = [r]
          ∧ error_calls (new_calls s s')
            = "Failed to inspect/write completion interaction for completionId"
              :: retry_errors
          ∧ recentCompletionIdsQueue s' = recentCompletionIdsQueue s
          ∧ recentCompletionIdsSet s' = recentCompletionIdsSet s)).
Proof.
  cbn zeta. split_and!.
  - destruct (head (contentChanges e)) as [changes|] eqn:Hh.
    + by rewrite (onChange_closed_form _ _ _ _ _ _ Hh).
    + by rewrite onChange_no_changes.
  - intros changes Hh. unfold step, handle.
    rewrite (onChange_closed_form _ _ _ _ _ _ Hh). cbn [snd calls].
    by rewrite app_comm_cons, app_assoc, last_snoc.
  - intros changes id Hh Hm Hid Hne Hfn.
    pose proof (step_cache getLineBreakCount s (DidChange e p w)) as Hc.
    cbn [inserted_by] in Hc. rewrite Hh, Hm in Hc.
    rewrite (new_calls_change _ _ _ _ _ _ Hh), Hm.
    split.
    + intros Hhome Hnin Hrec.
      rewrite (feedback_calls_first_attempt_raises _ _ _ _ id) by done.
      unfold remembered in Hc. rewrite Hid, Hrec, !andb_false_r in Hc.
      injection Hc as -> ->.
      destruct (fallbackRecordThrows w), (feedback_record changes p id)
        as [[a u] i]; done.
    + intros Hhome.
      rewrite (feedback_calls_inspection_raises _ _ _ _ id) by done.
      unfold remembered in Hc. rewrite Hid, Hhome, !andb_false_r in Hc.
      cbn in Hc. injection Hc as -> ->.
      destruct (fallbackRecordThrows w), (feedback_record changes p id)
        as [[a u] i]; done.
Qed.

(* ===================================================================== *)
(** ** At most one record per id                                          *)
(* ===================================================================== *)

Lemma elem_of_filter_length {A} (P : A → Prop) `{!∀ x, Decision (P x)}
    (l : list A) x :
  x ∈ l → P x → 1 ≤ length (filter P l).
Proof.
  intros Hx HP. assert (x ∈ filter P l) as Hin by (by apply list_elem_of_filter).
  destruct (filter P l); [by apply elem_of_nil in Hin|cbn; lia].
Qed.

(** C1 (amended): in a run of notifications from activation during which
    neither [os.homedir()] nor the first hand-over raises, a record for
    [c] is handed to [recordCompletionInteraction] if and only if some
    notification qualifies for [c]; two records for [c] are more than
    [MAX_RECENT_COMPLETION_IDS] positions apart in the sequence of records;
    and when fewer than [MAX_RECENT_COMPLETION_IDS] distinct other ids are
    recorded, at most one record is produced for [c], exactly one if some
    notification qualifies. *)
Theorem feedback_at_most_once getLineBreakCount ns c :
  Forall no_throw ns →
  let ids := recorded_ids (calls (run getLineBreakCount ns initial_state)) in
  (c ∈ ids ↔ Exists (λ n, qualifies c n = true) ns)
  ∧ (∀ i j, i < j → ids !! i = Some c → ids !! j = Some c →
            i + MAX_RECENT_COMPLETION_IDS < j)
  ∧ (size (list_to_set (filter (λ id, id ≠ c) ids) : gset string)
       < MAX_RECENT_COMPLETION_IDS →
     length (filter (λ id, id = c) ids) ≤ 1
     ∧ (Exists (λ n, qualifies c n = true) ns →
        length (filter (λ id, id = c) ids) = 1)).
Proof.
  intros Hall. cbn zeta.
  pose proof (run_no_throw_invariant getLineBreakCount ns Hall)
    as (_ & _ & Hsp).
  split_and!.
  - split; [by apply recorded_qualifies|by apply qualifies_recorded].
  - intros i j. apply Hsp.
  - intros Hfew. pose proof (spaced_few_others _ _ c Hsp Hfew) as Hle.
    split; [done|]. intros Hex.
    apply (qualifies_recorded getLineBreakCount) in Hex; [|done].
    pose proof (elem_of_filter_length (λ id, id = c) _ c Hex eq_refl). lia.
Qed.

(* ===================================================================== *)
(** ** Capacity and eviction order of the cache                           *)
(* ===================================================================== *)

Lemma qualifies_truthy c n : qualifies c n = true → c ≠ "".
Proof.
  destruct n as [e p w|f|f]; [|done..]. cbn.
  intros [[_ Ht%truthy_true]%andb_true_iff _]%andb_true_iff. done.
Qed.

(** A run in which the [i]-th notification qualifies for the [i]-th of a
    list of distinct ids, and nothing raises, inserts exactly these ids,
    in this order. *)
Lemma run_inserts getLineBreakCount ids ns :
  NoDup ids →
  Forall2 (λ id n, qualifies id n = true ∧ no_throw n) ids ns →
  let s := run getLineBreakCount ns initial_state in
  (recentCompletionIdsSet s, recentCompletionIdsQueue s) = remember_all ids
  ∧ Forall (λ id, id ≠ "") ids.
Proof.
  revert ns. induction ids as [|id ids IH] using rev_ind; intros ns Hnd Hall.
  { apply Forall2_nil_inv_l in Hall as ->. done. }
  apply Forall2_app_inv_l in Hall as (ns' & ns1 & Hall & Hlast & ->).
  apply Forall2_cons_inv_l in Hlast as (n & ? & [Hq Hnt] & ->%Forall2_nil_inv_l & ->).
  apply NoDup_app in Hnd as (Hnd & Hdisj & _).
  destruct (IH ns' Hnd Hall) as [Hc Hne]. cbn zeta.
  assert (Forall (λ id, id ≠ "") (ids ++ [id])) as Hne'.
  { apply Forall_app. split; [done|].
    apply Forall_singleton. by eapply qualifies_truthy. }
  split; [|done].
  destruct (remember_all_window ids Hnd Hne) as [Hw Hok].
  rewrite run_snoc, step_cache, remember_all_snoc, <-Hc. cbn [fst snd].
  rewrite (qualifies_inserted id n); [done..|].
  destruct Hok as (_ & Hmem & _). rewrite <-Hc in Hmem. cbn [fst snd] in Hmem.
  rewrite Hmem. intros Hin. rewrite <-Hc in Hw. cbn [snd] in Hw.
  rewrite Hw in Hin. apply subseteq_drop in Hin.
  eapply Hdisj; [done|]. by apply list_elem_of_singleton.
Qed.

(** C4: after any sequence of notifications from activation the cache
    holds at most [MAX_RECENT_COMPLETION_IDS] = 10 ids (in the set and in
    the queue); and after [MAX_RECENT_COMPLETION_IDS + k] distinct ids have
    been inserted, by edits that qualify for them one after the other, the
    queue holds the last [MAX_RECENT_COMPLETION_IDS] of them in insertion
    order, exactly these test as present, and the [k] oldest test as
    absent. *)
Theorem dedup_cache_bounded_fifo getLineBreakCount any ids ns k :
  NoDup ids →
  Forall2 (λ id n, qualifies id n = true ∧ no_throw n) ids ns →
  length ids = MAX_RECENT_COMPLETION_IDS + k →
  let s0 := run getLineBreakCount any initial_state in
  let s := run getLineBreakCount ns initial_state in
  MAX_RECENT_COMPLETION_IDS = 10
  ∧ size (recentCompletionIdsSet s0) ≤ MAX_RECENT_COMPLETION_IDS
  ∧ length (recentCompletionIdsQueue s0) ≤ MAX_RECENT_COMPLETION_IDS
  ∧ recentCompletionIdsQueue s = drop k ids
  ∧ size (recentCompletionIdsSet s) = MAX_RECENT_COMPLETION_IDS
  ∧ (∀ id, has id (recentCompletionIdsSet s) = true ↔ id ∈ drop k ids)
  ∧ (∀ id, id ∈ take k ids → has id (recentCompletionIdsSet s) = false).
Proof.
  intros Hnd Hall Hlen. cbn zeta.
  pose proof (run_cache_ok getLineBreakCount any initial_state cache_ok_empty)
    as Hok0.
  pose proof (cache_ok_size _ _ Hok0) as Hsize0.
  destruct Hok0 as (_ & _ & Hlen0 & _).
  destruct (run_inserts getLineBreakCount ids ns Hnd Hall) as [Hc Hne].
  destruct (remember_all_window ids Hnd Hne) as [Hw Hok].
  rewrite <-Hc in Hw, Hok. cbn [fst snd] in Hw, Hok.
  replace (length ids - MAX_RECENT_COMPLETION_IDS) with k in Hw by lia.
  pose proof (cache_ok_size _ _ Hok) as Hsize.
  destruct Hok as (_ & Hmem & _).
  split_and!; [done|lia|done|done| | |].
  - rewrite Hsize, Hw, length_drop. lia.
  - intros id. by rewrite has_true, Hmem, Hw.
  - intros id Hin. apply has_false. rewrite Hmem, Hw. intros Hin'.
    rewrite <-(take_drop k ids) in Hnd.
    apply NoDup_app in Hnd as (_ & Hdisj & _). by eapply Hdisj.
Qed.

(* ===================================================================== *)
(** ** Closing and reopening a document                                   *)
(* ===================================================================== *)

Lemma counters_endSession c q :
  FileInteractionCache.counters (FileInteractionCache.endSession c) q
  = FileInteractionCache.counters c q.
Proof. done. Qed.

Lemma counters_startSession f c q :
  FileInteractionCache.counters (FileInteractionCache.startSession f c) q
  = FileInteractionCache.counters c q.
Proof. done. Qed.

Lemma counters_delete p c q :
  FileInteractionCache.counters (FileInteractionCache.delete p c) q
  = if decide (p = q) then FileInteractionCache.no_interaction
    else FileInteractionCache.counters c q.
Proof.
  unfold FileInteractionCache.counters, FileInteractionCache.delete. cbn.
  destruct (decide (p = q)) as [->|Hne].
  - by rewrite lookup_delete_eq.
  - by rewrite lookup_delete_ne.
Qed.

(** C3 (amended): the store's [endSession] and [startSession] leave the
    counters of every path as they are and [delete(path)] clears those of
    [path] only; the close handler calls [delete] on the closed path, so
    after a close followed by an open of the same path the counters of
    that path start again (one visit, no stroke, no stroke position),
    while the counters of every other path are those from before the
    close. *)
Theorem close_then_open_restarts_counters getLineBreakCount s p q :
  let c := fileInteractionCache s in
  let c' :=
    fileInteractionCache (run getLineBreakCount [DidClose p; DidOpen p] s) in
  FileInteractionCache.counters c' q
  = (if decide (p = q) then
       {| FileInteractionCache.visits := 1;
          FileInteractionCache.strokes := 0;
          FileInteractionCache.lastStrokePosition := None |}
     else FileInteractionCache.counters c q)
  ∧ FileInteractionCache.counters (FileInteractionCache.endSession c) q
    = FileInteractionCache.counters c q
  ∧ FileInteractionCache.counters (FileInteractionCache.startSession p c) q
    = FileInteractionCache.counters c q
  ∧ FileInteractionCache.counters (FileInteractionCache.delete p c) q
    = (if decide (p = q) then FileInteractionCache.no_interaction
       else FileInteractionCache.counters c q).
Proof.
  cbn zeta. split_and!; [|done|done|apply counters_delete].
  change (run getLineBreakCount [DidClose p; DidOpen p] s)
    with (step getLineBreakCount (step getLineBreakCount s (DidClose p))
            (DidOpen p)).
  rewrite step_open, step_close. cbn [fileInteractionCache with_cache].
  unfold FileInteractionCache.incrementVisits,
    FileInteractionCache.startSession, FileInteractionCache.delete,
    FileInteractionCache.endSession, FileInteractionCache.counters.
  cbn [FileInteractionCache.currentFile FileInteractionCache.interactions].
  destruct (decide (p = q)) as [->|Hne].
  - rewrite lookup_insert_eq, lookup_delete_eq. done.
  - rewrite lookup_insert_ne, lookup_delete_ne by done. done.
Qed.

(* ===================================================================== *)
(** ** Context items                                                      *)
(* ===================================================================== *)


Section ContextItems.

Import ContextRegistry.

Variable asRelativePath : string → string.
Variable basename : string → string.
Variable number_to_string : Z → string.
Variable replace : bool.

(** Adding an item never changes the ids already present, and appends the
    item when its id is new. *)
Lemma addContextItem_ids item reg :
  item_id <$> addContextItem replace item reg
  = if bool_decide (item_id item ∈ item_id <$> reg) then item_id <$> reg
    else (item_id <$> reg) ++ [item_id item].
Proof.
  unfold addContextItem. case_bool_decide as Hin.
  - destruct replace; [|done].
    rewrite <-list_fmap_compose. apply list_fmap_ext.
    intros _ i _. cbn. by case_bool_decide as Hi; [rewrite Hi|].
  - by rewrite fmap_app.
Qed.




End ContextItems.

(* ===================================================================== *)
(** ** Examples                                                           *)
(* ===================================================================== *)

(** The scenario of section 8: completion [c1] issued for [/src/a.ts] is
    accepted, then the same id sees another edit. *)
Example accepted_once :
  record_calls
    (calls (run pieces
              [accept "c1";
               edit "/src/a.ts" "x" "/src/a.ts" "return x + y" (Some "c1") quiet]
              initial_state))
  = [(true, None, "c1")].
Proof. vm_compute. reflexivity. Qed.

(** When the first hand-over raises, the record is handed over a second
    time and the id is not put into the cache. *)
Example first_attempt_raises :
  let w := {| homedirThrows := false; recordThrows := true;
              fallbackRecordThrows := false |} in
  let s := run pieces
             [edit "/src/a.ts" "x" "/src/a.ts" "return x + y" (Some "c1") w]
             initial_state in
  record_calls (calls s) = [(false, Some "x", "c1"); (false, Some "x", "c1")]
  ∧ recentCompletionIdsQueue s = [].
Proof. vm_compute. split; reflexivity. Qed.

(** C1, counterexample: an edit for [c], ten edits for ten other distinct
    ids, and a second edit for [c], with nothing raising: the record for
    [c] is handed to [recordCompletionInteraction] twice. *)
Lemma feedback_recorded_again_after_eviction :
  Forall no_throw eviction_run
  ∧ recorded_ids (calls (run pieces eviction_run initial_state))
    = ["c"; "a1"; "a2"; "a3"; "a4"; "a5"; "a6"; "a7"; "a8"; "a9"; "a10"; "c"]
  ∧ length (filter (λ id, id = "c")
              (recorded_ids (calls (run pieces eviction_run initial_state))))
    = 2.
Proof.
  split_and!.
  - unfold eviction_run. repeat (apply Forall_cons; split; [by split|]).
    apply Forall_nil_2.
  - vm_compute. reflexivity.
  - vm_compute. reflexivity.
Qed.

(** C1, witness: an edit for [c], one for another id, and a second edit for
    [c]: exactly one record for [c]. *)
Lemma feedback_at_most_once_witness :
  Forall no_throw [accept "c"; accept "a1"; accept "c"]
  ∧ length (filter (λ id, id = "c")
              (recorded_ids
                 (calls (run pieces [accept "c"; accept "a1"; accept "c"]
                           initial_state))))
    = 1.
Proof.
  assert (Forall no_throw [accept "c"; accept "a1"; accept "c"]) as Hall.
  { repeat (apply Forall_cons; split; [by split|]). apply Forall_nil_2. }
  split; [exact Hall|].
  destruct (feedback_at_most_once pieces
              [accept "c"; accept "a1"; accept "c"] "c" Hall)
    as (_ & _ & Hfew).
  apply Hfew.
  - vm_compute. lia.
  - apply Exists_cons_hd. vm_compute. reflexivity.
Defined.

(** C2, counterexample: the inserted text and [lastCompletionText] are
    both the empty string, hence equal, and the record produced has
    [accepted = false] (with the empty string as [userText]). *)
Lemma empty_edit_of_empty_completion_not_accepted :
  let e := edit_event "/src/a.ts" "" in
  let p := provider_with "/src/a.ts" "" (Some "c1") in
  record_calls
    (new_calls initial_state (step pieces initial_state (DidChange e p quiet)))
  = [(false, Some "", "c1")]
  ∧ (text <$> head (contentChanges e)) = Some (lastCompletionText p)
  ∧ ¬ (false = true ↔ "" = lastCompletionText p).
Proof.
  cbn zeta. split_and!; [vm_compute; reflexivity|reflexivity|].
  intros [_ H]. discriminate (H eq_refl).
Qed.

(** C2, witness: a rejected completion. *)
Lemma accepted_iff_nonempty_and_equal_witness :
  let e := edit_event "/src/a.ts" "x" in
  let p := provider_with "/src/a.ts" "return x + y" (Some "c1") in
  (false = true ↔ "x" ≠ "" ∧ "x" = "return x + y")
  ∧ (false = false → Some "x" = Some "x")
  ∧ (false = true → Some "x" = None)
  ∧ lastCompletionId p = Some "c1".
Proof.
  cbn zeta.
  apply (accepted_iff_nonempty_and_equal pieces
           (edit_event "/src/a.ts" "x")
           (provider_with "/src/a.ts" "return x + y" (Some "c1"))
           quiet initial_state
           {| text := "x"; range_start := {| line := 3; character := 4 |} |}
           false (Some "x") "c1").
  - reflexivity.
  - vm_compute. left.
Defined.

(** C3, counterexample: a document is opened, edited once, closed and
    opened again; the stroke counted before the close is gone. *)
Lemma counters_cleared_by_close_and_reopen :
  let stroke := edit "/src/a.ts" "x" "/src/b.ts" "" None quiet in
  FileInteractionCache.counters
    (fileInteractionCache
       (run pieces [DidOpen "/src/a.ts"; stroke] initial_state)) "/src/a.ts"
  = {| FileInteractionCache.visits := 1;
       FileInteractionCache.strokes := 1;
       FileInteractionCache.lastStrokePosition := Some (3, 4)%Z |}
  ∧ FileInteractionCache.counters
      (fileInteractionCache
         (run pieces [DidOpen "/src/a.ts"; stroke;
                      DidClose "/src/a.ts"; DidOpen "/src/a.ts"]
            initial_state)) "/src/a.ts"
    = {| FileInteractionCache.visits := 1;
         FileInteractionCache.strokes := 0;
         FileInteractionCache.lastStrokePosition := None |}.
Proof. cbn zeta. split; vm_compute; reflexivity. Qed.

(** C4, witness: eleven ids inserted one after the other. *)
Lemma dedup_cache_bounded_fifo_witness :
  let ids := ["i1"; "i2"; "i3"; "i4"; "i5"; "i6"; "i7"; "i8"; "i9"; "i10";
              "i11"] in
  let s := run pieces (accept <$> ids) initial_state in
  recentCompletionIdsQueue s
  = ["i2"; "i3"; "i4"; "i5"; "i6"; "i7"; "i8"; "i9"; "i10"; "i11"]
  ∧ size (recentCompletionIdsSet s) = 10
  ∧ has "i1" (recentCompletionIdsSet s) = false
  ∧ has "i11" (recentCompletionIdsSet s) = true.
Proof.
  cbn zeta.
  destruct (dedup_cache_bounded_fifo pieces eviction_run
              ["i1"; "i2"; "i3"; "i4"; "i5"; "i6"; "i7"; "i8"; "i9"; "i10";
               "i11"]
              (accept <$> ["i1"; "i2"; "i3"; "i4"; "i5"; "i6"; "i7"; "i8";
                           "i9"; "i10"; "i11"]) 1)
    as (_ & _ & _ & Hq & Hsize & Hin & Hout).
  - apply (bool_decide_unpack _). vm_compute. exact I.
  - cbn [fmap list_fmap].
    repeat (apply Forall2_cons; split;
            [split; [vm_compute; reflexivity|split; reflexivity]|]).
    apply Forall2_nil_2.
  - reflexivity.
  - split_and!.
    + exact Hq.
    + exact Hsize.
    + apply Hout. left.
    + apply Hin. cbn [drop]. do 9 right. left.
Defined.

(** C5, witness: completion issued for [/src/a.ts], edit in
    [/src/b.ts]. *)
Lemma unrelated_edit_not_recorded_witness :
  let e := edit_event "/src/b.ts" "x" in
  let p := provider_with "/src/a.ts" "return x + y" (Some "c2") in
  (onDidChangeTextDocument pieces e p quiet initial_state).1 = Normal tt
  ∧ record_calls
      (new_calls initial_state (step pieces initial_state (DidChange e p quiet)))
    = []
  ∧ stroke_calls
      (new_calls initial_state (step pieces initial_state (DidChange e p quiet)))
    = [(3, 4)%Z].
Proof.
  cbn zeta.
  apply (unrelated_edit_not_recorded pieces
           (edit_event "/src/b.ts" "x")
           (provider_with "/src/a.ts" "return x + y" (Some "c2"))
           quiet initial_state
           {| text := "x"; range_start := {| line := 3; character := 4 |} |}).
  - reflexivity.
  - left. discriminate.
Defined.

(** C6, witness. *)
Lemma strokes_once_per_edit_witness :
  stroke_calls
    (new_calls initial_state (step pieces initial_state (accept "c1")))
  = [(3, 4)%Z].
Proof.
  apply (strokes_once_per_edit pieces
           (edit_event "/src/a.ts" "return x + y")
           (provider_with "/src/a.ts" "return x + y" (Some "c1"))
           quiet initial_state
           {| text := "return x + y";
              range_start := {| line := 3; character := 4 |} |}).
  reflexivity.
Defined.

(** C10, witness. *)
Lemma no_content_change_no_effect_witness :
  let p := provider_with "/src/a.ts" "return x + y" (Some "c1") in
  onDidChangeTextDocument pieces empty_event p quiet initial_state
  = (Normal tt, initial_state)
  ∧ new_calls initial_state
      (step pieces initial_state (DidChange empty_event p quiet)) = [].
Proof.
  apply (no_content_change_no_effect pieces empty_event
           (provider_with "/src/a.ts" "return x + y" (Some "c1"))
           quiet initial_state).
  reflexivity.
Defined.

(** C8, witness: a two-line completion is accepted. *)
Lemma coarse_flag_agrees_with_record_witness :
  let e := edit_event "/src/a.ts" two_lines in
  let p := provider_with "/src/a.ts" two_lines (Some "c1") in
  let s' := step pieces initial_state (DidChange e p quiet) in
  ∃ flag,
    flag_calls (new_calls initial_state s') = [flag]
    ∧ acceptedLastCompletion s' = flag
    ∧ (flag = true ↔
         two_lines ≠ "" ∧ two_lines = lastCompletionText p
         ∧ (1 < pieces (lastCompletionText p))%Z)
    ∧ (∀ a u i,
         (a, u, i) ∈ record_calls (new_calls initial_state s') →
         flag = true → a = true).
Proof.
  cbn zeta.
  apply (coarse_flag_agrees_with_record pieces
           (edit_event "/src/a.ts" two_lines)
           (provider_with "/src/a.ts" two_lines (Some "c1"))
           quiet initial_state
           {| text := two_lines;
              range_start := {| line := 3; character := 4 |} |}).
  reflexivity.
Defined.

Example two_line_completion_accepted :
  let s' := step pieces initial_state
              (edit "/src/a.ts" two_lines "/src/a.ts" two_lines (Some "c1")
                 quiet) in
  acceptedLastCompletion s' = true
  ∧ record_calls (calls s') = [(true, None, "c1")].
Proof. vm_compute. split; reflexivity. Qed.

(* ===================================================================== *)
(** * Further properties of the change handler and the cache             *)
(* ===================================================================== *)

Lemma remember_queue_subseteq id (set : gset string) queue x :
  x ∈ (remember id set queue).2 → x ∈ queue ∨ x = id.
Proof.
  unfold remember. destruct (has id set); [by left|].
  destruct (decide _) as [_|_].
  - destruct queue as [|oldest rest]; cbn [app snd].
    + by intros ?%elem_of_nil.
    + rewrite elem_of_app, list_elem_of_singleton, elem_of_cons.
      intros [?|?]; [left; by right|by right].
  - cbn [snd]. rewrite elem_of_app, list_elem_of_singleton. tauto.
Qed.

(** The id the feedback block remembers is the id of the one record it
    hands over. *)
Lemma remembered_recorded changes p w set id :
  remembered p w set = Some id →
  recorded_ids (feedback_calls changes p w set) = [id].
Proof.
  unfold remembered, feedback_calls.
  destruct (lastCompletionId p) as [id'|]; [|done].
  destruct (truthy id'), (homedirThrows w), (has id' set),
    (hasRecordCompletionInteraction p), (recordThrows w); try done.
  cbn. by intros [= ->].
Qed.

(** The log only grows, and an id put into the cache by a notification is
    among the records the notification adds. *)
Lemma step_calls getLineBreakCount s n :
  ∃ cs, calls (step getLineBreakCount s n) = calls s ++ cs
        ∧ (∀ id, inserted_by n (recentCompletionIdsSet s) = Some id →
                 id ∈ recorded_ids cs).
Proof.
  destruct n as [e p w|f|f];
    [|exists []; split; [by rewrite app_nil_r|done]..].
  unfold step, handle, inserted_by.
  destruct (head (contentChanges e)) as [changes|] eqn:Hh.
  - rewrite (onChange_closed_form _ _ _ _ _ _ Hh). cbn [snd calls].
    eexists. split; [done|]. intros id Hins.
    rewrite recorded_ids_cons, recorded_ids_app.
    destruct (path_mismatch e p); [done|].
    rewrite (remembered_recorded _ _ _ _ _ Hins).
    apply elem_of_app. right. apply elem_of_app. left. left.
  - rewrite onChange_no_changes by done. exists []. cbn.
    split; [by rewrite app_nil_r|done].
Qed.

(** X1: after any sequence of notifications from activation, whatever
    raises, the set and the queue of the cache hold the same ids: the
    queue has no repeated entry and no empty id, an id is a member of the
    set exactly when it is in the queue, and the set has as many members
    as the queue has entries. *)
Theorem cache_set_mirrors_queue getLineBreakCount ns :
  let s := run getLineBreakCount ns initial_state in
  NoDup (recentCompletionIdsQueue s)
  ∧ (∀ id, id ∈ recentCompletionIdsSet s ↔ id ∈ recentCompletionIdsQueue s)
  ∧ ("" ∉ recentCompletionIdsQueue s)
  ∧ size (recentCompletionIdsSet s) = length (recentCompletionIdsQueue s).
Proof.
  cbn zeta.
  pose proof (run_cache_ok getLineBreakCount ns initial_state cache_ok_empty)
    as Hok.
  pose proof (cache_ok_size _ _ Hok) as Hsize.
  destruct Hok as (Hnd & Hmem & _ & Hne).
  split_and!; [done..| |done].
  intros Hin. by apply (proj1 (Forall_forall _ _) Hne "" Hin).
Qed.

(** X2: after any sequence of notifications from activation, whatever
    raises, every id held by the cache has been handed to
    [recordCompletionInteraction] before: the cache never suppresses an id
    for which no record was produced. *)
Theorem cached_ids_were_recorded getLineBreakCount ns id :
  let s := run getLineBreakCount ns initial_state in
  id ∈ recentCompletionIdsSet s → id ∈ recorded_ids (calls s).
Proof.
  cbn zeta.
  pose proof (run_cache_ok getLineBreakCount ns initial_state cache_ok_empty)
    as (_ & Hmem & _).
  rewrite Hmem. clear Hmem.
  induction ns as [|n ns IH] using rev_ind.
  { by intros ?%elem_of_nil. }
  rewrite run_snoc. set (s := run getLineBreakCount ns initial_state) in *.
  destruct (step_calls getLineBreakCount s n) as (cs & -> & Hcs).
  pose proof (step_cache getLineBreakCount s n) as Hc.
  rewrite recorded_ids_app, elem_of_app.
  destruct (inserted_by n _) as [id'|] eqn:Hins.
  - assert (recentCompletionIdsQueue (step getLineBreakCount s n)
            = (remember id' (recentCompletionIdsSet s)
                 (recentCompletionIdsQueue s)).2) as -> by (by rewrite <-Hc).
    intros [Hin| ->]%remember_queue_subseteq; [left; by apply IH|right].
    by apply Hcs.
  - injection Hc as _ ->. intros Hin. left. by apply IH.
Qed.

Lemma error_calls_app cs1 cs2 :
  error_calls (cs1 ++ cs2) = error_calls cs1 ++ error_calls cs2.
Proof. apply omap_app. Qed.

(** The cache after an edit, from the closed form. *)
Lemma edit_cache getLineBreakCount e p w s :
  inserted_by (DidChange e p w) (recentCompletionIdsSet s) = None →
  recentCompletionIdsSet (step getLineBreakCount s (DidChange e p w))
  = recentCompletionIdsSet s
  ∧ recentCompletionIdsQueue (step getLineBreakCount s (DidChange e p w))
    = recentCompletionIdsQueue s.
Proof.
  intros Hins. pose proof (step_cache getLineBreakCount s (DidChange e p w)) as Hc.
  rewrite Hins in Hc. by injection Hc as -> ->.
Qed.

(** X3: an edit whose [lastCompletionId] is already in the cache, with
    [os.homedir()] not raising, hands nothing to
    [recordCompletionInteraction], logs no error and leaves the set and the
    queue as they are, whatever text was inserted. *)
Theorem cached_id_is_skipped getLineBreakCount e p w s changes id :
  head (contentChanges e) = Some changes →
  lastCompletionId p = Some id →
  id ∈ recentCompletionIdsSet s →
  homedirThrows w = false →
  let s' := step getLineBreakCount s (DidChange e p w) in
  record_calls (new_calls s s') = []
  ∧ error_calls (new_calls s s') = []
  ∧ recentCompletionIdsSet s' = recentCompletionIdsSet s
  ∧ recentCompletionIdsQueue s' = recentCompletionIdsQueue s.
Proof.
  intros Hh Hid Hin Hhome. cbn zeta.
  assert (feedback_calls changes p w (recentCompletionIdsSet s) = []) as Hfb.
  { unfold feedback_calls.
    rewrite Hid, Hhome, (proj2 (has_true _ _) Hin). by destruct (truthy id). }
  assert (inserted_by (DidChange e p w) (recentCompletionIdsSet s) = None)
    as Hins.
  { cbn. rewrite Hh. destruct (path_mismatch e p); [done|].
    unfold remembered.
    rewrite Hid, (proj2 (has_true _ _) Hin), andb_false_r. done. }
  destruct (edit_cache getLineBreakCount e p w s Hins) as [-> ->].
  rewrite (new_calls_change _ _ _ _ _ _ Hh), Hfb.
  by destruct (path_mismatch e p).
Qed.

(** X4: when the first hand-over of an edit raises, the id is not put
    into the cache, so the next edit for the same id is recorded again:
    over the two edits the id is handed to [recordCompletionInteraction]
    three times. *)
Theorem raised_hand_over_is_recorded_again
    getLineBreakCount e1 p1 w1 e2 p2 w2 s changes id :
  head (contentChanges e1) = Some changes →
  path_mismatch e1 p1 = false →
  lastCompletionId p1 = Some id → id ≠ "" →
  hasRecordCompletionInteraction p1 = true →
  id ∉ recentCompletionIdsSet s →
  homedirThrows w1 = false → recordThrows w1 = true →
  qualifies id (DidChange e2 p2 w2) = true →
  no_throw (DidChange e2 p2 w2) →
  let s1 := step getLineBreakCount s (DidChange e1 p1 w1) in
  let s2 := step getLineBreakCount s1 (DidChange e2 p2 w2) in
  recorded_ids (new_calls s s1) = [id; id]
  ∧ recorded_ids (new_calls s1 s2) = [id]
  ∧ recorded_ids (calls s2) = recorded_ids (calls s) ++ [id; id; id].
Proof.
  intros Hh Hm Hid Hne Hfn Hnin Hhome Hrec Hq Hnt. cbn zeta.
  assert (inserted_by (DidChange e1 p1 w1) (recentCompletionIdsSet s) = None)
    as Hins.
  { cbn. rewrite Hh, Hm. unfold remembered.
    by rewrite Hid, Hrec, !andb_false_r. }
  destruct (edit_cache getLineBreakCount e1 p1 w1 s Hins) as [Hset _].
  set (s1 := step getLineBreakCount s (DidChange e1 p1 w1)) in *.
  assert (recorded_ids (new_calls s s1) = [id; id]) as H1.
  { unfold s1. rewrite (new_calls_change _ _ _ _ _ _ Hh), Hm.
    rewrite (feedback_calls_first_attempt_raises _ _ _ _ id) by done.
    by destruct (fallbackRecordThrows w1). }
  assert (calls s1 = calls s ++ new_calls s s1) as Hc1.
  { destruct (step_calls getLineBreakCount s (DidChange e1 p1 w1))
      as (cs & Hcs & _).
    fold s1 in Hcs. by rewrite (new_calls_app _ _ _ Hcs). }
  assert (id ∉ recentCompletionIdsSet s1) as Hnin1 by (by rewrite Hset).
  pose proof (step_recorded_no_throw getLineBreakCount s1 _ Hnt) as H2.
  rewrite (qualifies_inserted _ _ _ Hq Hnt Hnin1) in H2. cbn in H2.
  split_and!; [done| |].
  - destruct (step_calls getLineBreakCount s1 (DidChange e2 p2 w2))
      as (cs & Hcs & _).
    rewrite (new_calls_app _ _ _ Hcs).
    rewrite Hcs, recorded_ids_app in H2. by apply app_inv_head in H2.
  - rewrite H2, Hc1, recorded_ids_app, H1, <-app_assoc. done.
Qed.

Lemma step_no_changes getLineBreakCount e p w s :
  head (contentChanges e) = None →
  step getLineBreakCount s (DidChange e p w) = s.
Proof. intros Hh. unfold step, handle. by rewrite onChange_no_changes. Qed.

Lemma new_calls_same s : new_calls s s = [].
Proof. apply drop_all. Qed.

(** The records of the feedback block: the same record, at most twice. *)
Lemma feedback_calls_replicate changes p w set :
  ∃ k r,
    record_calls (feedback_calls changes p w set) = replicate k r
    ∧ k ≤ 2
    ∧ (recordThrows w = false → k ≤ 1)
    ∧ (0 < k → ∃ id, lastCompletionId p = Some id ∧ id ≠ ""
                     ∧ r = feedback_record changes p id).
Proof.
  unfold feedback_calls.
  destruct (lastCompletionId p) as [id|];
    [|exists 0, (false, None, ""); cbn; split_and!; [done|lia|lia|lia]].
  destruct (truthy id) eqn:Hid;
    [|exists 0, (false, None, ""); cbn; split_and!; [done|lia|lia|lia]].
  apply truthy_true in Hid.
  destruct (feedback_record changes p id) as [[a u] i] eqn:Hrec.
  unfold record_call. cbn [fst snd].
  destruct (hasRecordCompletionInteraction p), (homedirThrows w),
    (has id set), (recordThrows w), (fallbackRecordThrows w); cbn;
    first
      [ exists 0, (a, u, i); split_and!; [reflexivity|lia|lia|lia]
      | exists 1, (a, u, i); split_and!;
        [reflexivity|lia|lia|intros _; by exists id]
      | exists 2, (a, u, i); split_and!;
        [reflexivity|lia|done|intros _; by exists id] ].
Qed.

(** X5: one edit hands at most two records to
    [recordCompletionInteraction], at most one when the first hand-over
    does not raise; all records of one edit are the same record; every
    record carries a non-empty id, and it has no [userText] exactly when it
    is marked accepted. *)
Theorem hand_overs_per_edit getLineBreakCount e p w s :
  let rs :=
    record_calls
      (new_calls s (step getLineBreakCount s (DidChange e p w))) in
  length rs ≤ 2
  ∧ (recordThrows w = false → length rs ≤ 1)
  ∧ (∀ r r', r ∈ rs → r' ∈ rs → r = r')
  ∧ (∀ a u i, (a, u, i) ∈ rs → i ≠ "" ∧ (a = true ↔ u = None)).
Proof.
  cbn zeta. destruct (head (contentChanges e)) as [changes|] eqn:Hh.
  2:{ rewrite step_no_changes, new_calls_same by done. cbn.
      split_and!; [lia|lia|by intros ?? ?%elem_of_nil
                  |by intros ??? ?%elem_of_nil]. }
  rewrite (new_calls_change _ _ _ _ _ _ Hh). cbn.
  rewrite record_calls_app, app_nil_r.
  destruct (path_mismatch e p).
  { cbn. split_and!; [lia|lia|by intros ?? ?%elem_of_nil
                     |by intros ??? ?%elem_of_nil]. }
  destruct (feedback_calls_replicate changes p w (recentCompletionIdsSet s))
    as (k & r & -> & Hk & Hk1 & Hr).
  rewrite length_replicate. split_and!; [done|done| |].
  - by intros r1 r2 [-> _]%elem_of_replicate [-> _]%elem_of_replicate.
  - intros a u i [<- Hpos]%elem_of_replicate.
    destruct Hr as (id & _ & Hne & Hrec); [lia|].
    unfold feedback_record in Hrec. injection Hrec as -> -> ->.
    split; [done|]. by destruct (_ && _).
Qed.

(** X6: when the provider has no [recordCompletionInteraction] function,
    or its [lastCompletionId] is the empty string, an edit hands over no
    record and leaves the cache as it is, and the handler ends normally,
    whatever raises. *)
Theorem no_record_without_function_or_id getLineBreakCount e p w s :
  hasRecordCompletionInteraction p = false ∨ lastCompletionId p = Some "" →
  let s' := step getLineBreakCount s (DidChange e p w) in
  (onDidChangeTextDocument getLineBreakCount e p w s).1 = Normal tt
  ∧ record_calls (new_calls s s') = []
  ∧ recentCompletionIdsSet s' = recentCompletionIdsSet s
  ∧ recentCompletionIdsQueue s' = recentCompletionIdsQueue s.
Proof.
  intros Hcase. cbn zeta.
  destruct (head (contentChanges e)) as [changes|] eqn:Hh.
  2:{ rewrite step_no_changes, new_calls_same by done.
      by rewrite onChange_no_changes. }
  assert (record_calls (feedback_calls changes p w (recentCompletionIdsSet s))
          = []
          ∧ remembered p w (recentCompletionIdsSet s) = None) as [Hfb Hrem].
  { unfold feedback_calls, remembered. destruct Hcase as [Hfn|Hid].
    - rewrite Hfn. destruct (lastCompletionId p) as [id|]; [|done].
      rewrite !andb_false_r.
      by destruct (truthy id), (homedirThrows w),
        (has id (recentCompletionIdsSet s)).
    - by rewrite Hid. }
  assert (inserted_by (DidChange e p w) (recentCompletionIdsSet s) = None)
    as Hins.
  { cbn. rewrite Hh. by destruct (path_mismatch e p). }
  destruct (edit_cache getLineBreakCount e p w s Hins) as [-> ->].
  split_and!; [|  |done..].
  - by rewrite (onChange_closed_form _ _ _ _ _ _ Hh).
  - rewrite (new_calls_change _ _ _ _ _ _ Hh). cbn.
    rewrite record_calls_app, app_nil_r. by destruct (path_mismatch e p).
Qed.

Lemma step_strokes getLineBreakCount s n :
  stroke_calls (calls (step getLineBreakCount s n))
  = stroke_calls (calls s) ++ option_list (edit_position n).
Proof.
  destruct n as [e p w|f|f]; [|cbn; by rewrite app_nil_r..].
  cbn [edit_position].
  destruct (head (contentChanges e)) as [changes|] eqn:Hh.
  - unfold step, handle.
    rewrite (onChange_closed_form _ _ _ _ _ _ Hh). cbn [snd calls].
    rewrite stroke_calls_app. f_equal. cbn. rewrite stroke_calls_app.
    destruct (path_mismatch e p); [done|].
    by rewrite feedback_calls_strokes.
  - rewrite step_no_changes by done. cbn. by rewrite app_nil_r.
Qed.

(** X7: over any sequence of notifications from activation, whatever
    raises, the calls of [incrementStrokes] are exactly the start positions
    of the edits that carry a content change, one call per edit, in the
    order the notifications were delivered. *)
Theorem strokes_follow_delivery_order getLineBreakCount ns :
  stroke_calls (calls (run getLineBreakCount ns initial_state))
  = omap edit_position ns.
Proof.
  induction ns as [|n ns IH] using rev_ind; [done|].
  rewrite run_snoc, step_strokes, IH, omap_app. f_equal.
Qed.

(** X8: accepting a completion for which [getLineBreakCount] is at most 1
    is recorded with [accepted = true] while the "last completion
    accepted" flag is set to false: the two signals differ on single-line
    completions. *)
Theorem single_line_acceptance getLineBreakCount e p w s changes id :
  head (contentChanges e) = Some changes →
  text changes ≠ "" → text changes = lastCompletionText p →
  (getLineBreakCount (lastCompletionText p) ≤ 1)%Z →
  qualifies id (DidChange e p w) = true →
  id ∉ recentCompletionIdsSet s →
  homedirThrows w = false →
  let s' := step getLineBreakCount s (DidChange e p w) in
  acceptedLastCompletion s' = false
  ∧ flag_calls (new_calls s s') = [false]
  ∧ head (record_calls (new_calls s s')) = Some (true, None, id).
Proof.
  intros Hh Hne Heq Hlb Hq Hnin Hhome. cbn zeta.
  cbn in Hq. rewrite !andb_true_iff in Hq.
  destruct Hq as ((((_ & Hm%negb_true_iff) & Hid%bool_decide_eq_true)
                    & Ht) & Hfn).
  assert (coarse_flag getLineBreakCount changes p = false) as Hflag.
  { unfold coarse_flag. rewrite (bool_decide_eq_false_2 _); [|lia].
    apply andb_false_r. }
  assert (feedback_record changes p id = (true, None, id)) as Hrec.
  { unfold feedback_record.
    rewrite (proj2 (truthy_true _) Hne), <-Heq, (proj2 (truthy_true _) Hne).
    unfold strict_eq. by rewrite bool_decide_eq_true_2. }
  split_and!.
  - unfold step, handle.
    by rewrite (onChange_closed_form _ _ _ _ _ _ Hh).
  - rewrite (new_calls_change _ _ _ _ _ _ Hh), Hflag, Hm. cbn.
    rewrite flag_calls_app, feedback_calls_flags. done.
  - rewrite (new_calls_change _ _ _ _ _ _ Hh), Hm. cbn.
    rewrite record_calls_app, app_nil_r. unfold feedback_calls.
    rewrite Hid, Ht, Hhome, Hfn, (proj2 (has_false _ _) Hnin), Hrec. done.
Qed.

(* ===================================================================== *)
(** * Further properties of the interaction wiring                        *)
(* ===================================================================== *)

Lemma step_change_store getLineBreakCount e p w s :
  fileInteractionCache (step getLineBreakCount s (DidChange e p w))
  = match head (contentChanges e) with
    | Some changes =>
        FileInteractionCache.incrementStrokes
          (line (range_start changes)) (character (range_start changes))
          (fileInteractionCache s)
    | None => fileInteractionCache s
    end.
Proof.
  destruct (head (contentChanges e)) as [changes|] eqn:Hh.
  - unfold step, handle. by rewrite (onChange_closed_form _ _ _ _ _ _ Hh).
  - by rewrite step_no_changes.
Qed.

(** X9: an edit adds one stroke to the path of the open session and
    records the start of the edit as its last stroke position, whichever
    document the change event is for; the visits of that path and the
    counters of every other path are unchanged, and the session stays
    open. *)
Theorem edit_counts_for_open_session getLineBreakCount e p w s changes f q :
  head (contentChanges e) = Some changes →
  FileInteractionCache.currentFile (fileInteractionCache s) = Some f →
  let c := fileInteractionCache s in
  let c' := fileInteractionCache (step getLineBreakCount s (DidChange e p w)) in
  FileInteractionCache.counters c' q
  = (if decide (f = q) then
       {| FileInteractionCache.visits :=
            FileInteractionCache.visits (FileInteractionCache.counters c f);
          FileInteractionCache.strokes :=
            S (FileInteractionCache.strokes (FileInteractionCache.counters c f));
          FileInteractionCache.lastStrokePosition :=
            Some (line (range_start changes), character (range_start changes)) |}
     else FileInteractionCache.counters c q)
  ∧ FileInteractionCache.currentFile c' = Some f.
Proof.
  intros Hh Hf. cbn zeta. rewrite step_change_store, Hh.
  unfold FileInteractionCache.incrementStrokes. rewrite Hf.
  split; [|done].
  unfold FileInteractionCache.counters at 1.
  cbn [FileInteractionCache.interactions].
  destruct (decide (f = q)) as [->|Hne].
  - by rewrite lookup_insert_eq.
  - by rewrite lookup_insert_ne.
Qed.

Lemma run_changes_without_session getLineBreakCount ns s :
  Forall (λ n, is_change n = true) ns →
  FileInteractionCache.currentFile (fileInteractionCache s) = None →
  fileInteractionCache (run getLineBreakCount ns s) = fileInteractionCache s.
Proof.
  revert s. induction ns as [|n ns IH]; intros s Hall Hnone; [done|].
  apply Forall_cons in Hall as [Hn Hall].
  destruct n as [e p w|f|f]; [|done..].
  cbn [run foldl].
  assert (fileInteractionCache (step getLineBreakCount s (DidChange e p w))
          = fileInteractionCache s) as Hstep.
  { rewrite step_change_store. destruct (head (contentChanges e)); [|done].
    unfold FileInteractionCache.incrementStrokes. by rewrite Hnone. }
  change (foldl (step getLineBreakCount)
            (step getLineBreakCount s (DidChange e p w)) ns)
    with (run getLineBreakCount ns (step getLineBreakCount s (DidChange e p w))).
  rewrite IH; [done..|]. by rewrite Hstep.
Qed.

(** X10: closing any document ends the open session, whichever file it
    was opened for: after a close, edits are not counted for any path until
    a document is opened again, and the store stays as the close left
    it. *)
Theorem edits_after_close_are_not_counted getLineBreakCount s f ns :
  Forall (λ n, is_change n = true) ns →
  fileInteractionCache (run getLineBreakCount (DidClose f :: ns) s)
  = FileInteractionCache.delete f
      (FileInteractionCache.endSession (fileInteractionCache s)).
Proof.
  intros Hall.
  change (run getLineBreakCount (DidClose f :: ns) s)
    with (run getLineBreakCount ns (step getLineBreakCount s (DidClose f))).
  rewrite run_changes_without_session; [|done|].
  - by rewrite step_close.
  - by rewrite step_close.
Qed.

(* ===================================================================== *)
(** * Further properties of the context commands                          *)
(* ===================================================================== *)

Section ContextCommands.

Import ContextRegistry.

Variable asRelativePath : string → string.
Variable basename : string → string.
Variable number_to_string : Z → string.
Variable replace : bool.
Variable hasAddContextItem : bool.

Local Abbreviation exec :=
  (execute asRelativePath basename number_to_string replace hasAddContextItem).
Local Abbreviation exec_cs :=
  (execute_all asRelativePath basename number_to_string replace
     hasAddContextItem).

Lemma exec_cs_snoc cs c s : exec_cs (cs ++ [c]) s = exec (exec_cs cs s) c.
Proof. unfold execute_all. by rewrite foldl_app. Qed.

Lemma addContextItem_prefix item reg :
  (item_id <$> reg) `prefix_of` (item_id <$> addContextItem replace item reg).
Proof.
  rewrite addContextItem_ids. case_bool_decide; [done|].
  by apply prefix_app_r.
Qed.

Lemma exec_prefix s c :
  (item_id <$> registry s) `prefix_of` (item_id <$> registry (exec s c)).
Proof.
  destruct c as [[ed|]|[ed|] uuid]; cbn; try done.
  - destruct hasAddContextItem; [apply addContextItem_prefix|done].
  - destruct (selection_isEmpty ed); cbn; [done|].
    destruct hasAddContextItem; [apply addContextItem_prefix|done].
Qed.

(** X11: the add-selection command shows the message "No text selected to
    add to context." exactly when there is no editor or the selection is
    empty, and no other message is ever shown; commands that find no editor
    or no selection leave the registry as it is, and so does every command
    when the sidebar has no [addContextItem] member. *)
Theorem commands_without_item cs s :
  let s' := exec_cs cs s in
  informationMessages s'
  = informationMessages s
    ++ replicate (length (filter (λ c, without_selection c = true) cs))
         "No text selected to add to context."
  ∧ (Forall (λ c, builds_no_item c = true) cs → registry s' = registry s)
  ∧ (hasAddContextItem = false → registry s' = registry s).
Proof.
  cbn zeta. induction cs as [|c cs IH] using rev_ind.
  { cbn. by rewrite app_nil_r. }
  destruct IH as (Hmsg & Hnone & Hmember).
  rewrite exec_cs_snoc, filter_app, length_app, replicate_add, app_assoc,
    <-Hmsg.
  assert (length (filter (λ c, without_selection c = true) [c])
          = if without_selection c then 1 else 0) as ->.
  { rewrite filter_cons. destruct (without_selection c).
    - by rewrite decide_True.
    - by rewrite decide_False. }
  set (t := exec_cs cs s) in *.
  split_and!.
  - destruct c as [[ed|]|[ed|] uuid]; cbn.
    + rewrite app_nil_r. by destruct hasAddContextItem.
    + by rewrite app_nil_r.
    + destruct (selection_isEmpty ed) eqn:Hempty; cbn; [done|].
      rewrite app_nil_r. by destruct hasAddContextItem.
    + done.
  - intros [Hall Hc]%Forall_app. rewrite Forall_singleton in Hc.
    rewrite <-Hnone by done.
    destruct c as [[ed|]|[ed|] uuid]; cbn in Hc |- *; try done.
    by rewrite Hc.
  - intros Hfalse. rewrite <-Hmember by done.
    destruct c as [[ed|]|[ed|] uuid]; cbn; try done.
    + by rewrite Hfalse.
    + rewrite Hfalse. by destruct (selection_isEmpty ed).
Qed.

(** X12: the commands never remove or reorder registry entries: the ids
    present before a sequence of commands are, in the same order, the
    first ids of the registry after it. *)
Theorem commands_keep_insertion_order cs s :
  (item_id <$> registry s) `prefix_of` (item_id <$> registry (exec_cs cs s)).
Proof.
  induction cs as [|c cs IH] using rev_ind; [done|].
  rewrite exec_cs_snoc. etrans; [exact IH|]. apply exec_prefix.
Qed.








End ContextCommands.

(* ===================================================================== *)
(** * Context keys of the tab commands                                    *)
(* ===================================================================== *)

Section ContextKeys.

Import Tabs.

Variable EXTENSION_CONTEXT_NAME : ContextName → string.
Variable WEBUI_TABS : Tab → string.

(** The constants name different context keys. *)
Hypothesis distinct_names : Inj (=) (=) EXTENSION_CONTEXT_NAME.

Local Abbreviation exec := (execute EXTENSION_CONTEXT_NAME WEBUI_TABS).
Local Abbreviation exec_cs := (execute_all EXTENSION_CONTEXT_NAME WEBUI_TABS).
Local Abbreviation ctx := (context EXTENSION_CONTEXT_NAME).

Ltac lookup_keys :=
  repeat (rewrite lookup_insert_eq
          || rewrite lookup_insert_ne
               by (let H := fresh in
                   intros H; apply distinct_names in H; discriminate H)).

Lemma postSetTab_contexts hv tab ui :
  contexts (postSetTab WEBUI_TABS hv tab ui) = contexts ui.
Proof. unfold postSetTab. by destruct hv. Qed.

(** What one command does to one context key. *)
Lemma exec_context hv ui c k :
  ctx k (exec hv ui c)
  = match opens c with
    | Some k' =>
        if bool_decide (EXTENSION_CONTEXT_NAME k' = EXTENSION_CONTEXT_NAME k)
        then Some true else ctx k ui
    | None => if reset_by_hideBackButton k then Some false else ctx k ui
    end.
Proof.
  unfold context.
  destruct c; cbn [execute opens]; rewrite ?postSetTab_contexts;
    unfold hideBackButton_handler, setContext; cbn [contexts].
  1-6: case_bool_decide as Hk;
    [rewrite Hk; by rewrite lookup_insert_eq|by rewrite lookup_insert_ne].
  all: destruct k; cbn [reset_by_hideBackButton]; by lookup_keys.
Qed.

Lemma exec_cs_tabs_snoc cs c ui :
  exec_cs (cs ++ [c]) ui = exec c.1 (exec_cs cs ui) c.2.
Proof. unfold execute_all. by rewrite foldl_app. Qed.

(** X13: no command ever clears the context key [twinnyEmbeddingsTab]:
    once it is true it stays true through every sequence of commands,
    [hideBackButton] and [openChat] included; the other five keys are false
    after [hideBackButton] or [openChat], whatever ran before; and the
    commands that open a tab never clear a key, so the keys of several tabs
    can be true at the same time. *)
Theorem context_keys_after_commands cs hv ui :
  let ui' := exec_cs cs ui in
  (ctx twinnyEmbeddingsTab ui = Some true →
   ctx twinnyEmbeddingsTab ui' = Some true)
  ∧ (∀ k, reset_by_hideBackButton k = true →
          ctx k (exec hv ui' hideBackButton) = Some false
          ∧ ctx k (exec hv ui' openChat) = Some false)
  ∧ (∀ k, Forall (λ c, is_Some (opens c.2)) cs →
          ctx k ui = Some true → ctx k ui' = Some true).
Proof.
  cbn zeta. split_and!.
  - intros Htrue. induction cs as [|[hv' c] cs IH] using rev_ind; [done|].
    rewrite exec_cs_tabs_snoc, exec_context. cbn [fst snd].
    destruct (opens c) as [k'|]; [|done].
    by case_bool_decide.
  - intros k Hk. rewrite !exec_context. cbn [opens]. by rewrite Hk.
  - intros k Hall Htrue.
    induction cs as [|[hv' c] cs IH] using rev_ind; [done|].
    apply Forall_app in Hall as [Hall Hc]. rewrite Forall_singleton in Hc.
    rewrite exec_cs_tabs_snoc, exec_context. cbn [fst snd] in Hc |- *.
    destruct Hc as [k' ->]. case_bool_decide; [done|]. by apply IH.
Qed.

End ContextKeys.

(* ===================================================================== *)
(** ** Examples for the further properties                                *)
(* ===================================================================== *)

(** X2, witness. *)
Lemma cached_ids_were_recorded_witness :
  "c1" ∈ recorded_ids (calls (run pieces [accept "c1"] initial_state)).
Proof.
  apply (cached_ids_were_recorded pieces [accept "c1"] "c1").
  apply (bool_decide_unpack _). vm_compute. exact I.
Defined.

(** X3, witness: [c1] was accepted; a later edit with another text for
    the same id is skipped. *)
Lemma cached_id_is_skipped_witness :
  let s := run pieces [accept "c1"] initial_state in
  let s' := step pieces s
              (edit "/src/a.ts" "x" "/src/a.ts" "return x + y" (Some "c1")
                 quiet) in
  record_calls (new_calls s s') = []
  ∧ error_calls (new_calls s s') = []
  ∧ recentCompletionIdsSet s' = recentCompletionIdsSet s
  ∧ recentCompletionIdsQueue s' = recentCompletionIdsQueue s.
Proof.
  cbn zeta.
  apply (cached_id_is_skipped pieces
           (edit_event "/src/a.ts" "x")
           (provider_with "/src/a.ts" "return x + y" (Some "c1"))
           quiet (run pieces [accept "c1"] initial_state)
           {| text := "x"; range_start := {| line := 3; character := 4 |} |}
           "c1").
  - reflexivity.
  - reflexivity.
  - apply (bool_decide_unpack _). vm_compute. exact I.
  - reflexivity.
Defined.

(** X4, witness: the hand-over of the first edit raises, the second edit
    is recorded again. *)
Lemma raised_hand_over_is_recorded_again_witness :
  let w1 := {| homedirThrows := false; recordThrows := true;
               fallbackRecordThrows := false |} in
  let n1 := edit "/src/a.ts" "x" "/src/a.ts" "return x + y" (Some "c1") w1 in
  recorded_ids (calls (run pieces [n1; accept "c1"] initial_state))
  = ["c1"; "c1"; "c1"].
Proof.
  cbn zeta.
  destruct (raised_hand_over_is_recorded_again pieces
              (edit_event "/src/a.ts" "x")
              (provider_with "/src/a.ts" "return x + y" (Some "c1"))
              {| homedirThrows := false; recordThrows := true;
                 fallbackRecordThrows := false |}
              (edit_event "/src/a.ts" "return x + y")
              (provider_with "/src/a.ts" "return x + y" (Some "c1"))
              quiet initial_state
              {| text := "x"; range_start := {| line := 3; character := 4 |} |}
              "c1")
    as (_ & _ & Hall).
  - reflexivity.
  - vm_compute. reflexivity.
  - reflexivity.
  - discriminate.
  - reflexivity.
  - apply (bool_decide_unpack _). vm_compute. exact I.
  - reflexivity.
  - reflexivity.
  - vm_compute. reflexivity.
  - split; reflexivity.
  - exact Hall.
Defined.

(** X6, witness: a provider without [recordCompletionInteraction]. *)
Lemma no_record_without_function_or_id_witness :
  let p := {| lastCompletionText := "return x + y";
              _document := Some "/src/a.ts";
              lastCompletionId := Some "c1";
              hasRecordCompletionInteraction := false |} in
  let e := edit_event "/src/a.ts" "return x + y" in
  let s' := step pieces initial_state (DidChange e p quiet) in
  (onDidChangeTextDocument pieces e p quiet initial_state).1 = Normal tt
  ∧ record_calls (new_calls initial_state s') = []
  ∧ recentCompletionIdsSet s' = recentCompletionIdsSet initial_state
  ∧ recentCompletionIdsQueue s' = recentCompletionIdsQueue initial_state.
Proof.
  cbn zeta.
  apply (no_record_without_function_or_id pieces
           (edit_event "/src/a.ts" "return x + y")
           {| lastCompletionText := "return x + y";
              _document := Some "/src/a.ts";
              lastCompletionId := Some "c1";
              hasRecordCompletionInteraction := false |}
           quiet initial_state).
  left. reflexivity.
Defined.

(** X8, witness: a one-line completion is accepted. *)
Lemma single_line_acceptance_witness :
  let s' := step pieces initial_state (accept "c1") in
  acceptedLastCompletion s' = false
  ∧ flag_calls (new_calls initial_state s') = [false]
  ∧ head (record_calls (new_calls initial_state s')) = Some (true, None, "c1").
Proof.
  cbn zeta.
  apply (single_line_acceptance pieces
           (edit_event "/src/a.ts" "return x + y")
           (provider_with "/src/a.ts" "return x + y" (Some "c1"))
           quiet initial_state
           {| text := "return x + y";
              range_start := {| line := 3; character := 4 |} |}
           "c1").
  - reflexivity.
  - discriminate.
  - reflexivity.
  - vm_compute. discriminate.
  - vm_compute. reflexivity.
  - apply (bool_decide_unpack _). vm_compute. exact I.
  - reflexivity.
Defined.

(** X9, witness: [/src/a.ts] is open and an edit arrives for
    [/src/b.ts]. *)
Lemma edit_counts_for_open_session_witness :
  let s := step pieces initial_state (DidOpen "/src/a.ts") in
  let s' := step pieces s
              (edit "/src/b.ts" "x" "/src/a.ts" "return x + y" (Some "c2")
                 quiet) in
  FileInteractionCache.counters (fileInteractionCache s') "/src/a.ts"
  = {| FileInteractionCache.visits := 1;
       FileInteractionCache.strokes := 1;
       FileInteractionCache.lastStrokePosition := Some (3, 4)%Z |}
  ∧ FileInteractionCache.counters (fileInteractionCache s') "/src/b.ts"
    = FileInteractionCache.no_interaction.
Proof.
  cbn zeta.
  destruct (edit_counts_for_open_session pieces
              (edit_event "/src/b.ts" "x")
              (provider_with "/src/a.ts" "return x + y" (Some "c2"))
              quiet (step pieces initial_state (DidOpen "/src/a.ts"))
              {| text := "x"; range_start := {| line := 3; character := 4 |} |}
              "/src/a.ts" "/src/a.ts") as [Ha _]; [reflexivity..|].
  destruct (edit_counts_for_open_session pieces
              (edit_event "/src/b.ts" "x")
              (provider_with "/src/a.ts" "return x + y" (Some "c2"))
              quiet (step pieces initial_state (DidOpen "/src/a.ts"))
              {| text := "x"; range_start := {| line := 3; character := 4 |} |}
              "/src/a.ts" "/src/b.ts") as [Hb _]; [reflexivity..|].
  unfold edit. split.
  - rewrite Ha. vm_compute. reflexivity.
  - rewrite Hb. vm_compute. reflexivity.
Defined.

(** X10, witness: [/src/a.ts] is open, another document is closed, two
    edits follow. *)
Lemma edits_after_close_are_not_counted_witness :
  let s := step pieces initial_state (DidOpen "/src/a.ts") in
  FileInteractionCache.counters
    (fileInteractionCache
       (run pieces [DidClose "/src/b.ts"; accept "c1"; accept "c2"] s))
    "/src/a.ts"
  = {| FileInteractionCache.visits := 1;
       FileInteractionCache.strokes := 0;
       FileInteractionCache.lastStrokePosition := None |}.
Proof.
  cbn zeta.
  rewrite (edits_after_close_are_not_counted pieces
             (step pieces initial_state (DidOpen "/src/a.ts"))
             "/src/b.ts" [accept "c1"; accept "c2"]).
  - vm_compute. reflexivity.
  - repeat (apply Forall_cons; split; [reflexivity|]). apply Forall_nil_2.
Defined.

(** X13, witness: the embeddings tab is opened, then the providers tab,
    then the chat. *)
Lemma context_keys_after_commands_witness :
  let ui := Tabs.execute Tabs.sample_context_name Tabs.sample_tab true
              Tabs.initial Tabs.embeddingsCommand in
  let ui' := Tabs.execute_all Tabs.sample_context_name Tabs.sample_tab
               [(true, Tabs.manageProviders); (true, Tabs.openChat)] ui in
  Tabs.context Tabs.sample_context_name Tabs.twinnyEmbeddingsTab ui'
  = Some true
  ∧ Tabs.context Tabs.sample_context_name Tabs.twinnyManageProviders ui'
    = Some false.
Proof.
  cbn zeta.
  assert (Inj (=) (=) Tabs.sample_context_name) as Hinj.
  { intros [] [] H; try reflexivity; discriminate H. }
  destruct (context_keys_after_commands Tabs.sample_context_name
              Tabs.sample_tab Hinj
              [(true, Tabs.manageProviders); (true, Tabs.openChat)] true
              (Tabs.execute Tabs.sample_context_name Tabs.sample_tab true
                 Tabs.initial Tabs.embeddingsCommand))
    as (Hemb & _ & _).
  split.
  - apply Hemb. vm_compute. reflexivity.
  - vm_compute. reflexivity.
Defined.


(** The file added twice and two selections of the same range with two
    tokens: one file entry, two selection entries. *)
Example same_range_two_tokens :
  ContextRegistry.item_id
    <$> ContextRegistry.registry
          (ContextRegistry.execute_all (λ p, p) (λ p, p) (λ _, "n") false true
             (pinning
              ++ [ContextRegistry.AddSelection (Some editor_a) "token-2"])
             ContextRegistry.empty)
  = ["src/a.ts"; "token-1"; "token-2"].
Proof. vm_compute. reflexivity. Qed.

(** The same token returned twice: the second item is not a new entry. *)
Example same_token_twice :
  ContextRegistry.item_id
    <$> ContextRegistry.registry
          (ContextRegistry.execute_all (λ p, p) (λ p, p) (λ _, "n") false true
             (pinning
              ++ [ContextRegistry.AddSelection (Some editor_a) "token-1"])
             ContextRegistry.empty)
  = ["src/a.ts"; "token-1"].
Proof. vm_compute. reflexivity. Qed.
